(** * wenet/transducer/transducer.py: a shallow embedding of [Transducer]

    The class [Transducer] combines an RNN-T objective with optional CTC and
    attention-decoder objectives and offers three decoding paths.  The neural
    modules (encoder, predictor, joint, CTC head, attention decoder), the
    tensor kernels of torch and torchaudio, and the helpers imported from
    [wenet.utils.common] and [wenet.transducer.search] are opaque here: they
    are fields of a [Backend] record or of the [Transducer] object itself, and
    every statement below holds for each choice of them.

    Conventions of the embedding:
    - a label tensor of shape (B, U) is a [list (list Z)], a length tensor
      a [list Z]; integer casts [.to(torch.int64)] and [.to(torch.int32)]
      wrap around as two's-complement casts do;
    - floating-point scalars (weights, losses, log-probabilities) are exact
      rationals [Q]; rounding is outside the model;
    - Python exceptions are values of [exn]; a method body runs in the monad
      [M], which threads the list of module invocations made so far. *)

From Stdlib Require Import String ZArith QArith List Bool Lia Arith.
Import ListNotations.

Set Implicit Arguments.

(** ** Integer casts *)

Definition wrap (w : Z) (z : Z) : Z :=
  ((z + 2 ^ (w - 1)) mod 2 ^ w - 2 ^ (w - 1))%Z.

Definition to_int64 : Z -> Z := wrap 64.
Definition to_int32 : Z -> Z := wrap 32.

Definition in_int32 (z : Z) : Prop := (- 2 ^ 31 <= z < 2 ^ 31)%Z.

(** ** Rational scalars *)

Definition Qneb (x y : Q) : bool := negb (Qeq_bool x y).
Definition Qgtb (x y : Q) : bool := negb (Qle_bool x y).

(** [-float('inf')] is the only non-finite value the source writes down. *)
Inductive xscore : Type :=
| NegInf
| Fin (q : Q).

(** [score > best_score] with a finite left operand. *)
Definition gt_xscore (score : Q) (best : xscore) : bool :=
  match best with
  | NegInf => true
  | Fin b => Qgtb score b
  end.

(** ** Tensors of labels and of log-probabilities *)

Definition Labels := list (list Z).
Definition Lens := list Z.
Definition Logits3 := list (list (list Q)).
Definition Mask := list (list bool).

Definition lookup2 {A} (m : list (list A)) (i j : nat) : option A :=
  match nth_error m i with
  | Some row => nth_error row j
  | None => None
  end.

(** ** Exceptions, invocation log and the monad of method bodies *)

Inductive exn : Type :=
| AssertionError
| AttributeError
| IndexError
| RuntimeError
| TypeError
| UnboundLocalError.

Inductive result (A : Type) : Type :=
| Ok (a : A)
| Raise (e : exn).
Arguments Ok {A} a.
Arguments Raise {A} e.

(** One entry per forward pass of an opaque module and per kernel call.
    The loss kernel records the label tensor it is handed, the predictor
    step its input.  [predictor.init_state], which only hands out the
    initial state, leaves no entry. *)
Inductive event : Type :=
| EvEncoder
| EvPredictor
| EvPredictorStep (label : Z)
| EvJoint
| EvRnntLoss (labels : Labels)
| EvCtc
| EvAttentionDecoder
| EvCriterionAtt
| EvBeamSearch.

Definition M (A : Type) : Type := list event -> result A * list event.

Class Monad (m : Type -> Type) : Type := {
  ret : forall {A}, A -> m A;
  bind : forall {A B}, m A -> (A -> m B) -> m B;
}.

#[export] Instance result_monad : Monad result := {
  ret := fun A a => Ok a;
  bind := fun A B r k => match r with Ok a => k a | Raise e => Raise e end;
}.

#[export] Instance M_monad : Monad M := {
  ret := fun A a tr => (Ok a, tr);
  bind := fun A B m k tr =>
    match m tr with
    | (Ok a, tr') => k a tr'
    | (Raise e, tr') => (Raise e, tr')
    end;
}.

Definition raise {A} (e : exn) : M A := fun tr => (Raise e, tr).

Definition assert_ (b : bool) : M unit :=
  if b then ret tt else raise AssertionError.

(** Calling an opaque module: log the call, return its value. *)
Definition call {A} (e : event) (v : A) : M A := fun tr => (Ok v, tr ++ [e]).

(** The calls made by one pass of a loop body. *)
Definition tell (evs : list event) : M unit := fun tr => (Ok tt, tr ++ evs).

(** A pure, possibly failing computation inside a method body. *)
Definition lift {A} (r : result A) : M A := fun tr => (r, tr).

Declare Scope monad_scope.
Delimit Scope monad_scope with monad.
Notation "x <- m ;; k" := (bind m (fun x => k))
  (at level 61, m at next level, right associativity) : monad_scope.
Notation "' pat <- m ;; k" := (bind m (fun x => match x with pat => k end))
  (at level 61, pat pattern, m at next level, right associativity) : monad_scope.
Notation "m ;;; k" := (bind m (fun _ => k))
  (at level 61, right associativity) : monad_scope.
Open Scope monad_scope.

Definition run {A} (m : M A) : result A * list event := m [].

(** ** The opaque collaborators *)

(** A finalized beam-search hypothesis: [.hyp] (with its leading start
    sentinel) and [.score]. *)
Record BeamHyp : Type := { hyp : list Z; score : Q }.

Record Backend : Type := {
  Feat : Type;       (* the features of one utterance *)
  Enc : Type;        (* one encoder output frame *)
  Pred : Type;       (* a predictor output tensor *)
  PState : Type;     (* a predictor state tensor *)
  Joint : Type;      (* a joint output tensor *)
  (* wenet.utils.common *)
  add_blank : Labels -> Z -> Z -> Labels;
  add_sos_eos : Labels -> Z -> Z -> Z -> Labels * Labels;
  reverse_pad_list : Labels -> Lens -> Z -> Labels;
  th_accuracy : Logits3 -> Labels -> Z -> Q;
  LabelSmoothingLoss : Z -> Z -> Q -> bool -> Logits3 -> Labels -> Q;
  (* torchaudio.functional.rnnt_loss at reduction="mean" and "none" *)
  rnnt_loss_mean : Joint -> Labels -> Lens -> Lens -> Z -> Q;
  rnnt_loss_none : Joint -> Labels -> Lens -> Lens -> Z -> list Q;
  (* torch *)
  log_softmax : Logits3 -> Logits3;
  joint_log_softmax : Joint -> Joint;
  argmax_squeeze : Joint -> Z;
}.

Section Model.

Context {B : Backend}.

Definition EncOut : Type := list (list (Enc B)).

Record Predictor : Type := {
  predictor_forward : Labels -> Pred B;
  forward_step : Z -> list (list Q) -> PState B -> PState B ->
                 Pred B * PState B * PState B;
  init_state : Z -> string -> PState B * PState B;
}.

(** [TransformerDecoder] or [BiTransformerDecoder]; only the latter has the
    attribute [right_decoder]. *)
Record AttentionDecoder : Type := {
  decoder_forward : EncOut -> Mask -> Labels -> Lens -> Labels -> Q ->
                    Logits3 * Logits3;
  right_decoder : bool;
}.

Definition CTC : Type := EncOut -> Lens -> Labels -> Lens -> Q.

(** [PrefixBeamSearch.prefix_beam_search] of the object that [init_bs] builds
    on first use from the model's own modules; the search lives outside this
    file and is taken as given.  A keyword argument the caller leaves out
    is [None]. *)
Definition PrefixBeamSearch : Type :=
  list (Feat B) -> Lens -> Z -> Z -> Z -> option bool -> Q -> Q ->
  list BeamHyp * EncOut.

(** The attributes [__init__] binds on [self].  [encoder] receives the two
    chunking arguments when the caller passes them.  [bs] is bound to [None]
    by [__init__] and filled by [init_bs] before its first use; the field
    holds the search object it is filled with. *)
Record Transducer : Type := {
  blank : Z;
  sos : Z;
  eos : Z;
  vocab_size : Z;
  ignore_id : Z;
  transducer_weight : Q;
  ctc_weight : Q;
  reverse_weight : Q;
  attention_decoder_weight : Q;
  encoder : list (Feat B) -> Lens -> option Z -> option Z -> EncOut * Mask;
  predictor : Predictor;
  joint : EncOut -> Pred B -> Joint B;
  ctc : option CTC;
  attention_decoder : option AttentionDecoder;
  bs : PrefixBeamSearch;
  criterion_att : option (Logits3 -> Labels -> Q);
}.

(** [Transducer.__init__]; [bs_] is the search [init_bs] will build.  The
    weight check and [1 - transducer_weight - ctc_weight] are evaluated on
    exact rationals here, on binary64 in the source. *)
Definition Transducer_init (vocab_size_ blank_ : Z)
    (encoder_ : list (Feat B) -> Lens -> option Z -> option Z -> EncOut * Mask)
    (predictor_ : Predictor) (joint_ : EncOut -> Pred B -> Joint B)
    (attention_decoder_ : option AttentionDecoder) (ctc_ : option CTC)
    (ctc_weight_ : Q) (ignore_id_ : Z) (reverse_weight_ lsm_weight : Q)
    (length_normalized_loss : bool) (transducer_weight_ attention_weight : Q)
    (bs_ : PrefixBeamSearch) : result Transducer :=
  if Qeq_bool (attention_weight + ctc_weight_ + transducer_weight_) 1 then
    Ok {| blank := blank_;
          sos := vocab_size_ - 1;
          eos := vocab_size_ - 1;
          vocab_size := vocab_size_;
          ignore_id := ignore_id_;
          transducer_weight := transducer_weight_;
          ctc_weight := ctc_weight_;
          reverse_weight := reverse_weight_;
          attention_decoder_weight := 1 - transducer_weight_ - ctc_weight_;
          encoder := encoder_;
          predictor := predictor_;
          joint := joint_;
          ctc := ctc_;
          attention_decoder := attention_decoder_;
          bs := bs_;
          criterion_att :=
            match attention_decoder_ with
            | Some _ =>
                Some (LabelSmoothingLoss B vocab_size_ ignore_id_ lsm_weight
                        length_normalized_loss)
            | None => None
            end |}
  else Raise AssertionError.

(** ** Padding remap for the RNN-T loss kernel

    [rnnt_text = text.to(torch.int64)]
    [rnnt_text = torch.where(rnnt_text == ignore_id, 0, rnnt_text).to(torch.int32)] *)
Definition remap_label (ignore : Z) (v : Z) : Z :=
  let v64 := to_int64 v in
  to_int32 (if (v64 =? ignore)%Z then 0%Z else v64).

Definition rnnt_remap (ignore : Z) (text : Labels) : Labels :=
  map (map (remap_label ignore)) text.

Definition count_true (row : list bool) : Z :=
  Z.of_nat (length (filter (fun b => b) row)).

(** ** [Transducer._calc_att_loss] *)
Definition _calc_att_loss (self : Transducer) (dec : AttentionDecoder)
    (encoder_out : EncOut) (encoder_mask : Mask) (ys_pad : Labels)
    (ys_pad_lens : Lens) : M (Q * Q) :=
  let '(ys_in_pad, ys_out_pad) :=
    add_sos_eos B ys_pad (sos self) (eos self) (ignore_id self) in
  let ys_in_lens := map (fun l => (l + 1)%Z) ys_pad_lens in
  let r_ys_pad := reverse_pad_list B ys_pad ys_pad_lens (ignore_id self) in
  let '(r_ys_in_pad, r_ys_out_pad) :=
    add_sos_eos B r_ys_pad (sos self) (eos self) (ignore_id self) in
  '(decoder_out, r_decoder_out) <-
     call EvAttentionDecoder
       (decoder_forward dec encoder_out encoder_mask ys_in_pad ys_in_lens
          r_ys_in_pad (reverse_weight self)) ;;
  match criterion_att self with
  | None => raise AttributeError
  | Some crit =>
      loss_att <- call EvCriterionAtt (crit decoder_out ys_out_pad) ;;
      r_loss_att <-
        (if Qgtb (reverse_weight self) 0
         then call EvCriterionAtt (crit r_decoder_out r_ys_out_pad)
         else ret 0) ;;
      let loss_att :=
        loss_att * (1 - reverse_weight self) + r_loss_att * reverse_weight self in
      let acc_att := th_accuracy B decoder_out ys_out_pad (ignore_id self) in
      ret (loss_att, acc_att)
  end.

(** ** [Transducer.forward] *)

Record LossBundle : Type := {
  loss : Q;
  loss_att : option Q;
  loss_ctc : option Q;
  loss_rnnt : Q;
}.

(** [.sum()] of a zero-dimensional loss tensor. *)
Definition tensor_sum (x : Q) : Q := x.

(** [if x is not None: loss = loss + w * x.sum()] *)
Definition add_term (loss_ w : Q) (x : option Q) : Q :=
  match x with
  | Some v => loss_ + w * tensor_sum v
  | None => loss_
  end.

(** The block "optional attention decoder" of [forward]. *)
Definition forward_att (self : Transducer) (encoder_out : EncOut)
    (encoder_mask : Mask) (text : Labels) (text_lengths : Lens)
    : M (option Q) :=
  match attention_decoder self with
  | Some dec =>
      if Qneb (attention_decoder_weight self) 0
      then '(l, _) <- _calc_att_loss self dec encoder_out encoder_mask text
                        text_lengths ;;
           ret (Some l)
      else ret None
  | None => ret None
  end.

(** The block "optional ctc" of [forward]. *)
Definition forward_ctc (self : Transducer) (encoder_out : EncOut)
    (encoder_out_lens : Lens) (text : Labels) (text_lengths : Lens)
    : M (option Q) :=
  match ctc self with
  | Some ctc_head =>
      if Qneb (ctc_weight self) 0
      then l <- call EvCtc (ctc_head encoder_out encoder_out_lens text
                              text_lengths) ;;
           ret (Some l)
      else ret None
  | None => ret None
  end.

Definition batch_unified (speech : list (Feat B)) (speech_lengths : Lens)
    (text : Labels) (text_lengths : Lens) : bool :=
  (length speech =? length speech_lengths)%nat
  && (length speech_lengths =? length text)%nat
  && (length text =? length text_lengths)%nat.

Definition forward (self : Transducer) (speech : list (Feat B))
    (speech_lengths : Lens) (text : Labels) (text_lengths : Lens)
    : M LossBundle :=
  assert_ (batch_unified speech speech_lengths text text_lengths) ;;;
  '(encoder_out, encoder_mask) <-
     call EvEncoder (encoder self speech speech_lengths None None) ;;
  let encoder_out_lens := map count_true encoder_mask in
  let ys_in_pad := add_blank B text (blank self) (ignore_id self) in
  predictor_out <- call EvPredictor (predictor_forward (predictor self) ys_in_pad) ;;
  joint_out <- call EvJoint (joint self encoder_out predictor_out) ;;
  let rnnt_text := rnnt_remap (ignore_id self) text in
  let rnnt_text_lengths := map to_int32 text_lengths in
  let encoder_out_lens := map to_int32 encoder_out_lens in
  loss0 <- call (EvRnntLoss rnnt_text)
             (rnnt_loss_mean B joint_out rnnt_text encoder_out_lens
                rnnt_text_lengths (blank self)) ;;
  let loss_rnnt_ := loss0 in
  loss_att_ <- forward_att self encoder_out encoder_mask text text_lengths ;;
  loss_ctc_ <- forward_ctc self encoder_out encoder_out_lens text text_lengths ;;
  let loss1 := add_term loss0 (ctc_weight self) loss_ctc_ in
  let loss2 := add_term loss1 (attention_decoder_weight self) loss_att_ in
  ret {| loss := loss2; loss_att := loss_att_; loss_ctc := loss_ctc_;
         loss_rnnt := loss_rnnt_ |}.

(** ** Attribute lookup on [self]

    [nn.Module.__getattr__] finds what [__init__] bound and raises
    [AttributeError] for every other name. *)
Inductive attr : Type :=
| AInt (z : Z)
| AFloat (q : Q)
| AEncoder
| APredictor
| AJoint
| ACtc (c : option CTC)
| AAttentionDecoder (d : option AttentionDecoder)
| ABs
| ACriterion.

Definition getattr (self : Transducer) (name : string) : result attr :=
  match name with
  | "blank" => Ok (AInt (blank self))
  | "sos" => Ok (AInt (sos self))
  | "eos" => Ok (AInt (eos self))
  | "vocab_size" => Ok (AInt (vocab_size self))
  | "ignore_id" => Ok (AInt (ignore_id self))
  | "transducer_weight" => Ok (AFloat (transducer_weight self))
  | "ctc_weight" => Ok (AFloat (ctc_weight self))
  | "reverse_weight" => Ok (AFloat (reverse_weight self))
  | "attention_decoder_weight" => Ok (AFloat (attention_decoder_weight self))
  | "encoder" => Ok AEncoder
  | "predictor" => Ok APredictor
  | "joint" => Ok AJoint
  | "ctc" => Ok (ACtc (ctc self))
  | "attention_decoder" => Ok (AAttentionDecoder (attention_decoder self))
  | "bs" => Ok ABs
  | "criterion_att" =>
      match criterion_att self with
      | Some _ => Ok ACriterion
      | None => Raise AttributeError
      end
  | _ => Raise AttributeError
  end%string.

(** [hasattr(x, 'right_decoder')] *)
Definition hasattr_right_decoder (x : attr) : bool :=
  match x with
  | AAttentionDecoder (Some d) => right_decoder d
  | _ => false
  end.

(** ** [Transducer.beam_search] *)
Definition beam_search (self : Transducer) (speech : list (Feat B))
    (speech_lengths : Lens) (decoding_chunk_size beam_size
    num_decoding_left_chunks : Z) (simulate_streaming : bool)
    (ctc_weight_ transducer_weight_ : Q) : M (list Z * Q) :=
  '(beam, _) <-
     call EvBeamSearch
       (bs self speech speech_lengths decoding_chunk_size beam_size
          num_decoding_left_chunks (Some simulate_streaming) ctc_weight_
          transducer_weight_) ;;
  match beam with
  | b0 :: _ => ret (tl (hyp b0), score b0)
  | [] => raise IndexError
  end.

(** ** Indexing *)

(** A position produced by [enumerate] or [len]: never negative. *)
Definition get {A} (l : list A) (i : nat) : result A :=
  match nth_error l i with
  | Some x => Ok x
  | None => Raise IndexError
  end.

(** A label used as an index: a negative one counts from the end. *)
Definition np_index {A} (l : list A) (k : Z) : result A :=
  let n := Z.of_nat (length l) in
  if (0 <=? k)%Z then get l (Z.to_nat k)
  else if (- n <=? k)%Z then get l (Z.to_nat (n + k))
  else Raise IndexError.

(** [pad_sequence(seqs, True, padding_value)]: an empty list of sequences is
    refused. *)
Definition pad_to (n : nat) (padding : Z) (l : list Z) : list Z :=
  l ++ repeat padding (n - length l).

Definition max_len (seqs : list (list Z)) : nat :=
  fold_right (fun l m => Nat.max (length l) m) 0%nat seqs.

Definition pad_sequence (seqs : list (list Z)) (padding : Z) : result Labels :=
  match seqs with
  | [] => Raise RuntimeError
  | _ => Ok (map (pad_to (max_len seqs) padding) seqs)
  end.

(** ** The scoring loop of [transducer_attention_rescoring] *)

Section Rescore.

Variables (decoder_out r_decoder_out : Logits3).
Variables (td_score beam_score : list Q).
Variables (eos_ : Z) (reverse_weight_ ctc_weight_ attn_weight transducer_weight_ : Q).

(** [for j, w in enumerate(hyp): score += decoder_out[i][j][w]] *)
Fixpoint forward_sum (i j : nat) (ws : list Z) (acc : Q) : result Q :=
  match ws with
  | [] => Ok acc
  | w :: rest =>
      row <- get decoder_out i ;;
      col <- get row j ;;
      p <- np_index col w ;;
      forward_sum i (S j) rest (acc + p)
  end.

(** [for j, w in enumerate(hyp): r_score += r_decoder_out[i][len(hyp) - j - 1][w]] *)
Fixpoint reverse_sum (i len j : nat) (ws : list Z) (acc : Q) : result Q :=
  match ws with
  | [] => Ok acc
  | w :: rest =>
      row <- get r_decoder_out i ;;
      col <- get row (len - j - 1) ;;
      p <- np_index col w ;;
      reverse_sum i len (S j) rest (acc + p)
  end.

(** The loop body up to the blend of the two directions: the attention
    score of hypothesis [i] and its transducer score [td_s]. *)
Definition attention_score (i : nat) (h : list Z) : result (Q * Q) :=
  s <- forward_sum i 0 h 0 ;;
  row <- get decoder_out i ;;
  col <- get row (length h) ;;
  e <- np_index col eos_ ;;
  let s := s + e in
  td_s <- get td_score i ;;
  if Qgtb reverse_weight_ 0 then
    r <- reverse_sum i (length h) 0 h 0 ;;
    rrow <- get r_decoder_out i ;;
    rcol <- get rrow (length h) ;;
    re <- np_index rcol eos_ ;;
    let r_score := r + re in
    Ok (s * (1 - reverse_weight_) + r_score * reverse_weight_, td_s)
  else Ok (s, td_s).

(** The whole loop body: the fused score of hypothesis [i]. *)
Definition hyp_score (i : nat) (h : list Z) : result Q :=
  '(s, td_s) <- attention_score i h ;;
  b <- get beam_score i ;;
  Ok (s * attn_weight + b * ctc_weight_ + td_s * transducer_weight_).

Fixpoint rescoring_loop (i : nat) (hyps : list (list Z))
    (best_score : xscore) (best_index : nat) : result (xscore * nat) :=
  match hyps with
  | [] => Ok (best_score, best_index)
  | h :: rest =>
      s <- hyp_score i h ;;
      if gt_xscore s best_score
      then rescoring_loop (S i) rest (Fin s) i
      else rescoring_loop (S i) rest best_score best_index
  end.

Definition select_best (hyps : list (list Z)) : result (list Z * xscore) :=
  '(best_score, best_index) <- rescoring_loop 0 hyps NegInf 0 ;;
  h <- get hyps best_index ;;
  Ok (h, best_score).

End Rescore.

(** ** [Transducer.transducer_attention_rescoring] *)

(** What the scoring loop reads: [hyps], [beam_score], [td_score] and the
    two log-probability tensors. *)
Record rescoring_inputs : Type := {
  ri_hyps : list (list Z);
  ri_beam_score : list Q;
  ri_td_score : list Q;
  ri_decoder_out : Logits3;
  ri_r_decoder_out : Logits3;
}.

(** The method up to the scoring loop: the checks, the beam search, the
    per-hypothesis transducer loss and the attention decoder pass. *)
Definition rescoring_prepare (self : Transducer)
    (speech : list (Feat B)) (speech_lengths : Lens) (beam_size : Z)
    (decoding_chunk_size num_decoding_left_chunks : Z)
    (simulate_streaming : bool)
    (reverse_weight_ search_ctc_weight search_transducer_weight : Q)
    : M rescoring_inputs :=
  assert_ (length speech =? length speech_lengths)%nat ;;;
  assert_ (negb (decoding_chunk_size =? 0)%Z) ;;;
  (if Qgtb reverse_weight_ 0
   then d <- lift (getattr self "decoder") ;;
        assert_ (hasattr_right_decoder d)
   else ret tt) ;;;
  let batch_size := length speech in
  assert_ (batch_size =? 1)%nat ;;;
  '(beam, encoder_out) <-
     call EvBeamSearch
       (bs self speech speech_lengths decoding_chunk_size beam_size
          num_decoding_left_chunks None search_ctc_weight
          search_transducer_weight) ;;
  let hyps := map (fun s => tl (hyp s)) beam in
  let beam_score := map score beam in
  assert_ (Z.of_nat (length hyps) =? beam_size)%Z ;;;
  hyps_pad <- lift (pad_sequence hyps (ignore_id self)) ;;
  let hyps_pad_blank := add_blank B hyps_pad (blank self) (ignore_id self) in
  let ori_hyps_pad := hyps_pad in
  let hyps_lens := map (fun h => Z.of_nat (length h)) hyps in
  let encoder_out := concat (repeat encoder_out (Z.to_nat beam_size)) in
  let encoder_mask :=
    repeat (repeat true (length (hd [] encoder_out))) (Z.to_nat beam_size) in
  let xs_in_lens := map (fun row => to_int32 (count_true row)) encoder_mask in
  predictor_out <-
    call EvPredictor (predictor_forward (predictor self) hyps_pad_blank) ;;
  joint_out <- call EvJoint (joint self encoder_out predictor_out) ;;
  let rnnt_text := rnnt_remap (ignore_id self) hyps_pad in
  loss_td <-
    call (EvRnntLoss rnnt_text)
      (rnnt_loss_none B joint_out rnnt_text xs_in_lens
         (map to_int32 hyps_lens) (blank self)) ;;
  let td_score := map (fun l => l * (-1 # 1)) loss_td in
  let '(hyps_pad, _) :=
    add_sos_eos B hyps_pad (sos self) (eos self) (ignore_id self) in
  let hyps_lens := map (fun l => (l + 1)%Z) hyps_lens in
  let r_hyps_pad := reverse_pad_list B ori_hyps_pad hyps_lens (ignore_id self) in
  let '(r_hyps_pad, _) :=
    add_sos_eos B r_hyps_pad (sos self) (eos self) (ignore_id self) in
  match attention_decoder self with
  | None => raise TypeError
  | Some dec =>
      '(decoder_out, r_decoder_out) <-
         call EvAttentionDecoder
           (decoder_forward dec encoder_out encoder_mask hyps_pad hyps_lens
              r_hyps_pad reverse_weight_) ;;
      let decoder_out := log_softmax B decoder_out in
      let r_decoder_out := log_softmax B r_decoder_out in
      ret {| ri_hyps := hyps;
             ri_beam_score := beam_score;
             ri_td_score := td_score;
             ri_decoder_out := decoder_out;
             ri_r_decoder_out := r_decoder_out |}
  end.

Definition transducer_attention_rescoring (self : Transducer)
    (speech : list (Feat B)) (speech_lengths : Lens) (beam_size : Z)
    (decoding_chunk_size num_decoding_left_chunks : Z)
    (simulate_streaming : bool)
    (reverse_weight_ ctc_weight_ attn_weight transducer_weight_
       search_ctc_weight search_transducer_weight : Q)
    : M (list Z * xscore) :=
  inp <- rescoring_prepare self speech speech_lengths beam_size
           decoding_chunk_size num_decoding_left_chunks simulate_streaming
           reverse_weight_ search_ctc_weight search_transducer_weight ;;
  lift (select_best (ri_decoder_out inp) (ri_r_decoder_out inp)
          (ri_td_score inp) (ri_beam_score inp) (eos self) reverse_weight_
          ctc_weight_ attn_weight transducer_weight_ (ri_hyps inp)).

(** ** [Transducer.greedy_search] *)

(** The local variables of the decoding loop.  [pred_out_step] starts as
    [None]; [state_out_m] and [state_out_c] are unbound until the predictor
    has run once. *)
Record gstate : Type := {
  t : Z;
  hyps : list Z;
  prev_out_nblk : bool;
  pred_out_step : option (Pred B);
  per_frame_noblk : Z;
  pred_input_step : Z;
  state_m : PState B;
  state_c : PState B;
  state_out : option (PState B * PState B);
}.

Definition per_frame_max_noblk : Z := 100.

(** [torch.zeros(1, 1)] *)
Definition padding : list (list Q) := [[0]].

(** [encoder_out[:, t:t + 1, :]] *)
Definition slice_time (encoder_out : EncOut) (t_ : Z) : EncOut :=
  map (fun row => firstn 1 (skipn (Z.to_nat t_) row)) encoder_out.

(** One pass through the body of [while t < encoder_out_lens], with the
    module calls it makes. *)
Definition greedy_body (self : Transducer) (encoder_out : EncOut)
    (st : gstate) : result (list event * gstate) :=
  let encoder_out_step := slice_time encoder_out (t st) in
  let '(evs, pred_out_step1, state_out1) :=
    if prev_out_nblk st then
      let '(o, m, c) :=
        forward_step (predictor self) (pred_input_step st) padding
          (state_m st) (state_c st) in
      ([EvPredictorStep (pred_input_step st)], Some o, Some (m, c))
    else ([], pred_out_step st, state_out st) in
  match pred_out_step1 with
  | None => Raise TypeError
  | Some p =>
      let joint_out_step := joint self encoder_out_step p in
      let joint_out_probs := joint_log_softmax B joint_out_step in
      let joint_out_max := argmax_squeeze B joint_out_probs in
      st2 <-
        (if negb (joint_out_max =? blank self)%Z then
           match state_out1 with
           | None => Raise UnboundLocalError
           | Some (m, c) =>
               Ok {| t := t st;
                     hyps := hyps st ++ [joint_out_max];
                     prev_out_nblk := true;
                     pred_out_step := pred_out_step1;
                     per_frame_noblk := (per_frame_noblk st + 1)%Z;
                     pred_input_step := joint_out_max;
                     state_m := m;
                     state_c := c;
                     state_out := state_out1 |}
           end
         else
           Ok {| t := t st;
                 hyps := hyps st;
                 prev_out_nblk := prev_out_nblk st;
                 pred_out_step := pred_out_step1;
                 per_frame_noblk := per_frame_noblk st;
                 pred_input_step := pred_input_step st;
                 state_m := state_m st;
                 state_c := state_c st;
                 state_out := state_out1 |}) ;;
      let capped := (per_frame_max_noblk <=? per_frame_noblk st2)%Z in
      Ok (evs ++ [EvJoint],
          if (joint_out_max =? blank self)%Z || capped then
            {| t := (t st2 + 1)%Z;
               hyps := hyps st2;
               prev_out_nblk := if capped then false else prev_out_nblk st2;
               pred_out_step := pred_out_step st2;
               per_frame_noblk := 0%Z;
               pred_input_step := pred_input_step st2;
               state_m := state_m st2;
               state_c := state_c st2;
               state_out := state_out st2 |}
          else st2)
  end.

(** [while t < encoder_out_lens: ...], at most [fuel] passes; [None] when
    the loop has not left by then. *)
Fixpoint greedy_loop (fuel : nat) (self : Transducer) (encoder_out : EncOut)
    (encoder_out_lens : Z) (st : gstate) : M (option gstate) :=
  if (t st <? encoder_out_lens)%Z then
    match fuel with
    | O => ret None
    | S fuel' =>
        '(evs, st') <- lift (greedy_body self encoder_out st) ;;
        tell evs ;;;
        greedy_loop fuel' self encoder_out encoder_out_lens st'
    end
  else ret (Some st).

(** The locals as the loop first sees them. *)
Definition greedy_init (self : Transducer) : gstate :=
  let '(m, c) := init_state (predictor self) 1 "zero" in
  {| t := 0;
     hyps := [];
     prev_out_nblk := true;
     pred_out_step := None;
     per_frame_noblk := 0;
     pred_input_step := blank self;
     state_m := m;
     state_c := c;
     state_out := None |}.

(** [encoder_mask.squeeze(1).sum()] *)
Definition mask_sum (encoder_mask : Mask) : Z :=
  fold_right Z.add 0%Z (map count_true encoder_mask).

Definition greedy_search (fuel : nat) (self : Transducer)
    (speech : list (Feat B)) (speech_lengths : Lens)
    (decoding_chunk_size num_decoding_left_chunks : Z)
    (simulate_streaming : bool) : M (option (list (list Z))) :=
  assert_ (length speech =? 1)%nat ;;;
  assert_ (length speech =? length speech_lengths)%nat ;;;
  assert_ (negb (decoding_chunk_size =? 0)%Z) ;;;
  let num_decoding_left_chunks := (-1)%Z in
  let decoding_chunk_size := (-1)%Z in
  let simulate_streaming := false in
  '(encoder_out, encoder_mask) <-
     call EvEncoder
       (encoder self speech speech_lengths (Some decoding_chunk_size)
          (Some num_decoding_left_chunks)) ;;
  let encoder_out_lens := mask_sum encoder_mask in
  r <- greedy_loop fuel self encoder_out encoder_out_lens (greedy_init self) ;;
  match r with
  | Some st => ret (Some [hyps st])
  | None => ret None
  end.

End Model.

Arguments EncOut B : clear implicits.
Arguments Predictor B : clear implicits.
Arguments AttentionDecoder B : clear implicits.
Arguments CTC B : clear implicits.
Arguments PrefixBeamSearch B : clear implicits.
Arguments Transducer B : clear implicits.
Arguments attr B : clear implicits.
Arguments gstate B : clear implicits.

(** * Vocabulary of the statements *)

(** Every entry of the batch fits the 32-bit label type of the kernel. *)
Definition labels_in_int32 (text : Labels) : Prop :=
  forall row v, In row text -> In v row -> in_int32 v.

Section Vocabulary.

Context {B : Backend}.
Implicit Types (self : Transducer B).

(** The two optional heads run exactly under these conditions. *)
Definition att_enabled self : bool :=
  match attention_decoder self with
  | Some _ => Qneb (attention_decoder_weight self) 0
  | None => false
  end.

Definition ctc_enabled self : bool :=
  match ctc self with
  | Some _ => Qneb (ctc_weight self) 0
  | None => false
  end.

Definition att_event (e : event) : Prop :=
  e = EvAttentionDecoder \/ e = EvCriterionAtt.

(** *** Forward-only scoring, as the specification words it

    The score of hypothesis [i] is the sum of the forward log-probabilities
    of its labels plus the end-sentinel log-probability right after them,
    fused with the beam score and the negated transducer loss; the reverse
    tensor is not an input. *)
Section ForwardOnly.

Variables (decoder_out : Logits3) (td_score beam_score : list Q).
Variables (eos_ : Z) (ctc_weight_ attn_weight transducer_weight_ : Q).

Definition forward_only_score (i : nat) (h : list Z) : result Q :=
  s <- forward_sum decoder_out i 0 h 0 ;;
  row <- get decoder_out i ;;
  col <- get row (length h) ;;
  e <- np_index col eos_ ;;
  td_s <- get td_score i ;;
  b <- get beam_score i ;;
  Ok ((s + e) * attn_weight + b * ctc_weight_ + td_s * transducer_weight_).

Fixpoint forward_only_loop (i : nat) (hyps_ : list (list Z))
    (best_score : xscore) (best_index : nat) : result (xscore * nat) :=
  match hyps_ with
  | [] => Ok (best_score, best_index)
  | h :: rest =>
      s <- forward_only_score i h ;;
      if gt_xscore s best_score
      then forward_only_loop (S i) rest (Fin s) i
      else forward_only_loop (S i) rest best_score best_index
  end.

Definition forward_only_select (hyps_ : list (list Z))
    : result (list Z * xscore) :=
  '(best_score, best_index) <- forward_only_loop 0 hyps_ NegInf 0 ;;
  h <- get hyps_ best_index ;;
  Ok (h, best_score).

End ForwardOnly.

Definition forward_only_rescoring self (speech : list (Feat B))
    (speech_lengths : Lens) (beam_size : Z)
    (decoding_chunk_size num_decoding_left_chunks : Z)
    (simulate_streaming : bool)
    (ctc_weight_ attn_weight transducer_weight_
       search_ctc_weight search_transducer_weight : Q)
    : M (list Z * xscore) :=
  inp <- rescoring_prepare self speech speech_lengths beam_size
           decoding_chunk_size num_decoding_left_chunks simulate_streaming
           0 search_ctc_weight search_transducer_weight ;;
  lift (forward_only_select (ri_decoder_out inp) (ri_td_score inp)
          (ri_beam_score inp) (eos self) ctc_weight_ attn_weight
          transducer_weight_ (ri_hyps inp)).

(** [labels] is [orig] with every ignore-id turned into 0 and every other
    entry kept, position by position: a valid position keeps its label,
    which is not the ignore-id, and 0 stands only where [orig] holds the
    ignore-id or 0 itself. *)
Definition remapped_from (ignore : Z) (orig labels : Labels) : Prop :=
  forall i j,
    match lookup2 orig i j with
    | Some v =>
        exists r,
          lookup2 labels i j = Some r
          /\ (v = ignore -> r = 0%Z)
          /\ (v <> ignore -> r = v /\ r <> ignore)
          /\ (r = 0%Z -> v = ignore \/ v = 0%Z)
    | None => lookup2 labels i j = None
    end.

(** [score > best_score] as a proposition. *)
Definition beats (s : Q) (best : xscore) : Prop :=
  match best with
  | NegInf => True
  | Fin b => b < s
  end.

(** *** The fused score, as the specification words it *)
Definition fused_score (attn_weight ctc_weight_ transducer_weight_ : Q)
    (attn_score beam_score_i loss_td_i : Q) : Q :=
  attn_weight * attn_score + ctc_weight_ * beam_score_i
  + transducer_weight_ * (- loss_td_i).

(** *** Passes of the greedy loop

    [loop_runs self enc L n st evs st'] : started in [st], the loop
    [while t < L] makes exactly [n] passes, calls [evs] and leaves in [st']. *)
Inductive loop_runs self (encoder_out : EncOut B) (L : Z)
    : nat -> gstate B -> list event -> gstate B -> Prop :=
| runs_exit st :
    (t st <? L)%Z = false ->
    loop_runs self encoder_out L 0 st [] st
| runs_pass n st evs st1 evs' st2 :
    (t st <? L)%Z = true ->
    greedy_body self encoder_out st = Ok (evs, st1) ->
    loop_runs self encoder_out L n st1 evs' st2 ->
    loop_runs self encoder_out L (S n) st (evs ++ evs') st2.

(** After its first pass the loop never meets an unset predictor output. *)
Definition ginv (st : gstate B) : Prop :=
  prev_out_nblk st = true
  \/ (pred_out_step st <> None /\ state_out st <> None).

(** [n] passes through the loop body in a row. *)
Fixpoint passes (n : nat) self (encoder_out : EncOut B) (st : gstate B)
    : result (gstate B) :=
  match n with
  | O => Ok st
  | S n' =>
      '(_, st1) <- greedy_body self encoder_out st ;;
      passes n' self encoder_out st1
  end.

(** The entry checks of [greedy_search]. *)
Definition greedy_checks (speech : list (Feat B)) (speech_lengths : Lens)
    (decoding_chunk_size : Z) : bool :=
  (length speech =? 1)%nat
  && (length speech =? length speech_lengths)%nat
  && negb (decoding_chunk_size =? 0)%Z.

(** The number of valid frames the encoder reports for an utterance. *)
Definition frames self (speech : list (Feat B)) (speech_lengths : Lens) : Z :=
  mask_sum (snd (encoder self speech speech_lengths (Some (-1)%Z)
                   (Some (-1)%Z))).

End Vocabulary.

(** * A small concrete model

    Stand-ins for the opaque collaborators, small enough to run: an encoder
    that passes its frames through, a predictor that echoes the label it is
    fed, and a joint network whose arg-max is read off a frame. *)
Module Toy.

Definition backend : Backend := {|
  Feat := list Z;
  Enc := Z;
  Pred := Z;
  PState := unit;
  Joint := Z;
  add_blank := fun ys blank_ ignore =>
    map (fun row =>
           blank_ :: map (fun v => if (v =? ignore)%Z then blank_ else v) row)
        ys;
  add_sos_eos := fun ys sos_ eos_ _ =>
    (map (cons sos_) ys, map (fun row => row ++ [eos_]) ys);
  reverse_pad_list := fun ys _ _ => map (@rev Z) ys;
  th_accuracy := fun _ _ _ => 0;
  LabelSmoothingLoss := fun _ _ _ _ _ _ => 4;
  rnnt_loss_mean := fun _ _ _ _ _ => 4;
  rnnt_loss_none := fun _ labels _ _ _ =>
    map (fun row => inject_Z (Z.of_nat (length row))) labels;
  log_softmax := fun x => x;
  joint_log_softmax := fun x => x;
  argmax_squeeze := fun x => x;
|}.

Definition encoder_ (speech : list (Feat backend)) (_ : Lens)
    (_ _ : option Z) : EncOut backend * Mask :=
  (speech, map (map (fun _ => true)) speech).

Definition predictor_ : Predictor backend :=
  @Build_Predictor backend
    (fun _ => 0%Z)
    (fun label _ m c => (label, m, c))
    (fun _ _ => (tt, tt)).

(** Emits the label written in the frame once, then blank (label 0). *)
Definition joint_echo (enc : EncOut backend) (pred : Z) : Z :=
  match enc with
  | [[f]] => if (pred =? 0)%Z then f else 0%Z
  | _ => 0%Z
  end.

(** Always favours the non-blank label 1. *)
Definition joint_stuck (_ : EncOut backend) (_ : Z) : Z := 1%Z.

Definition ctc_head : CTC backend := fun _ _ _ _ => 4.

(** Log-probabilities for two hypotheses over a three-token vocabulary. *)
Definition table : Logits3 :=
  [ [ [-3; -1; -2]; [-3; -2; -1]; [-1; -1; -1] ];
    [ [-3; -1; -2]; [-3; -1; -2]; [-3; -3; -1] ] ]%Q.

Definition r_table : Logits3 :=
  [ [ [-3; -2; -2]; [-3; -2; -2]; [-1; -1; -1] ];
    [ [-3; -1; -2]; [-3; -1; -2]; [-3; -3; -1] ] ]%Q.

(** A [BiTransformerDecoder]: it has a right-to-left decoder. *)
Definition bi_decoder : AttentionDecoder backend :=
  @Build_AttentionDecoder backend (fun _ _ _ _ _ _ => (table, r_table)) true.

Definition search : PrefixBeamSearch backend :=
  fun speech _ _ _ _ _ _ _ =>
    ([ {| hyp := [2; 1]%Z; score := -1 |};
       {| hyp := [2; 1; 1]%Z; score := -2 |} ], speech).

(** [Transducer(vocab_size, blank, ..., ctc_weight=0.25, ignore_id=-1,
    transducer_weight=0.5, attention_weight=0.25)] *)
Definition make (vocab_size_ blank_ : Z) (joint_ : EncOut backend -> Z -> Z)
    : Transducer backend := {|
  blank := blank_;
  sos := vocab_size_ - 1;
  eos := vocab_size_ - 1;
  vocab_size := vocab_size_;
  ignore_id := -1;
  transducer_weight := 1 # 2;
  ctc_weight := 1 # 4;
  reverse_weight := 0;
  attention_decoder_weight := 1 - (1 # 2) - (1 # 4);
  encoder := encoder_;
  predictor := predictor_;
  joint := joint_;
  ctc := Some ctc_head;
  attention_decoder := Some bi_decoder;
  bs := search;
  criterion_att :=
    Some (LabelSmoothingLoss backend vocab_size_ (-1) 0 false);
|}.

Definition model : Transducer backend := make 3 0 joint_echo.
Definition model_stuck : Transducer backend := make 3 0 joint_stuck.

(** A vocabulary of four tokens whose blank is 1: 0 is an ordinary label. *)
Definition model_blank1 : Transducer backend := make 4 1 joint_echo.

(** The same model without its two optional heads. *)
Definition model_bare : Transducer backend := {|
  blank := 0%Z;
  sos := 3 - 1;
  eos := 3 - 1;
  vocab_size := 3;
  ignore_id := -1;
  transducer_weight := 1;
  ctc_weight := 0;
  reverse_weight := 0;
  attention_decoder_weight := 1 - 1 - 0;
  encoder := encoder_;
  predictor := predictor_;
  joint := joint_echo;
  ctc := None;
  attention_decoder := None;
  bs := search;
  criterion_att := None;
|}.

(** One utterance of five frames: blank everywhere but label 7 at t = 2. *)
Definition speech5 : list (list Z) := [[0; 0; 7; 0; 0]%Z].

(** One utterance of two frames. *)
Definition speech2 : list (list Z) := [[0; 0]%Z].

(** The locals of [model_stuck] after 99 passes over [speech2], and after
    one more. *)
Definition state_99 : gstate backend := {|
  t := 0;
  hyps := repeat 1%Z 99;
  prev_out_nblk := true;
  pred_out_step := Some (1%Z : Pred backend);
  per_frame_noblk := 99;
  pred_input_step := 1%Z;
  state_m := tt;
  state_c := tt;
  state_out := Some (tt, tt);
|}.

Definition state_100 : gstate backend := {|
  t := 1;
  hyps := repeat 1%Z 100;
  prev_out_nblk := false;
  pred_out_step := Some (1%Z : Pred backend);
  per_frame_noblk := 0;
  pred_input_step := 1%Z;
  state_m := tt;
  state_c := tt;
  state_out := Some (tt, tt);
|}.

(** What the scoring loop of [model] reads for [speech2] with a beam of
    two, and the attention scores of its two hypotheses. *)
Definition inputs : rescoring_inputs := {|
  ri_hyps := [[1]; [1; 1]]%Z;
  ri_beam_score := [-1; -2];
  ri_td_score := [-2 # 1; -2 # 1];
  ri_decoder_out := table;
  ri_r_decoder_out := r_table;
|}.

Definition attn (i : nat) : Q :=
  match i with
  | O => -2
  | S _ => -3
  end.

End Toy.

(** * Further vocabulary *)

Section MoreVocabulary.

Context {B : Backend}.
Implicit Types (self : Transducer B).

(** What holds of the locals of the decoding loop however many passes were
    made: the counter stays below the cap and never exceeds the number of
    tokens, the tokens number at most 100 per frame left behind plus the
    counter, and the predictor flag is cleared only with at least 100
    tokens emitted and the counter at 0. *)
Definition reach_inv self (st : gstate B) : Prop :=
  ginv st
  /\ (0 <= t st)%Z
  /\ (0 <= per_frame_noblk st < per_frame_max_noblk)%Z
  /\ (per_frame_noblk st <= Z.of_nat (length (hyps st)))%Z
  /\ (Z.of_nat (length (hyps st))
      <= per_frame_max_noblk * t st + per_frame_noblk st)%Z
  /\ (prev_out_nblk st = false ->
      per_frame_noblk st = 0%Z
      /\ (per_frame_max_noblk <= Z.of_nat (length (hyps st)))%Z)
  /\ ~ In (blank self) (hyps st).

(** *** What the scoring loop of rescoring is fed

    The values lines 280-346 compute from the collaborators' results, named
    one by one: the stripped hypotheses and their beam scores, the encoder
    output repeated for the beam, the per-hypothesis transducer loss the
    kernel returns, and the two outputs of the attention decoder. *)
Section RescoringValues.

Variables (self : Transducer B) (speech : list (Feat B)) (speech_lengths : Lens).
Variables (beam_size decoding_chunk_size num_decoding_left_chunks : Z).
Variables (search_ctc_weight search_transducer_weight : Q).

Definition rescoring_beam : list BeamHyp * EncOut B :=
  bs self speech speech_lengths decoding_chunk_size beam_size
    num_decoding_left_chunks None search_ctc_weight search_transducer_weight.

Definition rescoring_hyps : list (list Z) :=
  map (fun s => tl (hyp s)) (fst rescoring_beam).

Definition rescoring_beam_score : list Q := map score (fst rescoring_beam).

Definition rescoring_encoder_out : EncOut B :=
  concat (repeat (snd rescoring_beam) (Z.to_nat beam_size)).

Definition rescoring_encoder_mask : Mask :=
  repeat (repeat true (length (hd [] rescoring_encoder_out)))
    (Z.to_nat beam_size).

(** [loss_td], the kernel's result at [reduction='none']. *)
Definition rescoring_loss_td (hyps_pad : Labels) : list Q :=
  rnnt_loss_none B
    (joint self rescoring_encoder_out
       (predictor_forward (predictor self)
          (add_blank B hyps_pad (blank self) (ignore_id self))))
    (rnnt_remap (ignore_id self) hyps_pad)
    (map (fun row => to_int32 (count_true row)) rescoring_encoder_mask)
    (map to_int32 (map (fun h => Z.of_nat (length h)) rescoring_hyps))
    (blank self).

(** [decoder_out, r_decoder_out] before [log_softmax]. *)
Definition rescoring_decoder_out (dec : AttentionDecoder B)
    (hyps_pad : Labels) (reverse_weight_ : Q) : Logits3 * Logits3 :=
  let hyps_lens :=
    map (fun l => (l + 1)%Z)
      (map (fun h => Z.of_nat (length h)) rescoring_hyps) in
  decoder_forward dec rescoring_encoder_out rescoring_encoder_mask
    (fst (add_sos_eos B hyps_pad (sos self) (eos self) (ignore_id self)))
    hyps_lens
    (fst (add_sos_eos B
            (reverse_pad_list B hyps_pad hyps_lens (ignore_id self))
            (sos self) (eos self) (ignore_id self)))
    reverse_weight_.

End RescoringValues.

(** [x] when the head produced it, [0.0] otherwise. *)
Definition or_zero (x : option Q) : Q :=
  match x with
  | Some v => v
  | None => 0
  end.

(** The checks of [transducer_attention_rescoring] that come before the
    beam search, for [reverse_weight <= 0]. *)
Definition rescoring_checks (speech : list (Feat B)) (speech_lengths : Lens)
    (decoding_chunk_size : Z) : bool :=
  (length speech =? length speech_lengths)%nat
  && negb (decoding_chunk_size =? 0)%Z
  && (length speech =? 1)%nat.

End MoreVocabulary.

Module ToyMore.

(** A joint network whose arg-max is always blank. *)
Definition joint_silent (_ : EncOut Toy.backend) (_ : Z) : Z := 0%Z.

Definition model_silent : Transducer Toy.backend :=
  Toy.make 3 0 joint_silent.

(** Its locals after one pass over [Toy.speech2]. *)
Definition silent_1 : gstate Toy.backend := {|
  t := 1;
  hyps := [];
  prev_out_nblk := true;
  pred_out_step := Some (0%Z : Pred Toy.backend);
  per_frame_noblk := 0;
  pred_input_step := 0%Z;
  state_m := tt;
  state_c := tt;
  state_out := Some (tt, tt);
|}.

(** The bundle [forward] returns for [Toy.model] when every head reports
    the loss 4. *)
Definition bundle : LossBundle := {|
  loss := 4 + (1 # 4) * 4 + (1 - (1 # 2) - (1 # 4)) * 4;
  loss_att := Some 4;
  loss_ctc := Some 4;
  loss_rnnt := 4;
|}.

(** The hypotheses of [Toy.search], padded with the ignore-id. *)
Definition hyps_pad : Labels := [[1; -1]; [1; 1]]%Z.

(** One utterance without a single frame. *)
Definition speech0 : list (list Z) := [[]].

End ToyMore.

(** * Properties *)

Unset Implicit Arguments.

(** ** The padding remap *)

Lemma to_int32_id (z : Z) : in_int32 z -> to_int32 z = z.
Proof.
  unfold in_int32, to_int32, wrap. intros H.
  change (2 ^ (32 - 1))%Z with 2147483648%Z in *.
  change (2 ^ 31)%Z with 2147483648%Z in *.
  change (2 ^ 32)%Z with 4294967296%Z.
  rewrite Z.mod_small; lia.
Qed.

Lemma to_int64_id (z : Z) : in_int32 z -> to_int64 z = z.
Proof.
  unfold in_int32, to_int64, wrap. intros H.
  change (2 ^ 31)%Z with 2147483648%Z in *.
  change (2 ^ (64 - 1))%Z with 9223372036854775808%Z.
  change (2 ^ 64)%Z with 18446744073709551616%Z.
  rewrite Z.mod_small; lia.
Qed.

Lemma remap_label_in_range (ignore v : Z) :
  in_int32 v ->
  remap_label ignore v = if (v =? ignore)%Z then 0%Z else v.
Proof.
  intros H. unfold remap_label. rewrite (to_int64_id _ H).
  destruct (v =? ignore)%Z.
  - apply to_int32_id. unfold in_int32. lia.
  - apply to_int32_id, H.
Qed.

Lemma lookup2_map {A C} (f : A -> C) (m : list (list A)) (i j : nat) :
  lookup2 (map (map f) m) i j = option_map f (lookup2 m i j).
Proof.
  unfold lookup2. rewrite nth_error_map.
  destruct (nth_error m i) as [row|]; simpl; [|reflexivity].
  apply nth_error_map.
Qed.

Lemma lookup2_In {A} (m : list (list A)) (i j : nat) (v : A) :
  lookup2 m i j = Some v -> exists row, In row m /\ In v row.
Proof.
  unfold lookup2. destruct (nth_error m i) as [row|] eqn:E; [|discriminate].
  intros H. exists row. split; eauto using nth_error_In.
Qed.

Lemma rnnt_remap_lookup (ignore : Z) (text : Labels) (i j : nat) (v : Z) :
  labels_in_int32 text ->
  lookup2 text i j = Some v ->
  lookup2 (rnnt_remap ignore text) i j
  = Some (if (v =? ignore)%Z then 0%Z else v).
Proof.
  intros Hr Hv. unfold rnnt_remap. rewrite lookup2_map, Hv. simpl.
  destruct (lookup2_In _ _ _ _ Hv) as (row & Hrow & Hin).
  now rewrite (remap_label_in_range ignore _ (Hr _ _ Hrow Hin)).
Qed.

Lemma rnnt_remap_shape (ignore : Z) (text : Labels) (i j : nat) :
  lookup2 (rnnt_remap ignore text) i j = None <-> lookup2 text i j = None.
Proof.
  unfold rnnt_remap. rewrite lookup2_map.
  destruct (lookup2 text i j); simpl; split; congruence.
Qed.

(** ** Running a method body *)

Lemma bind_inv {A C} (m : M A) (k : A -> M C) tr res tr' :
  bind m k tr = (res, tr') ->
  (exists a tr1, m tr = (Ok a, tr1) /\ k a tr1 = (res, tr'))
  \/ (exists e, m tr = (Raise e, tr') /\ res = Raise e).
Proof.
  cbn. destruct (m tr) as [[a|e] tr1]; intros H.
  - left. eauto.
  - right. injection H as <- <-. eauto.
Qed.

Lemma bind_unfold {A C} (m : M A) (k : A -> M C) (tr : list event) :
  bind m k tr
  = match m tr with
    | (Ok a, tr') => k a tr'
    | (Raise e, tr') => (Raise e, tr')
    end.
Proof. reflexivity. Qed.

Lemma assert_inv (b : bool) tr res tr' :
  assert_ b tr = (res, tr') ->
  tr' = tr /\ (if b then res = Ok tt else res = Raise AssertionError).
Proof. destruct b; cbn; intros [= <- <-]; auto. Qed.

(** ** The training loss *)

Section ForwardFacts.

Context {B : Backend}.
Implicit Types (self : Transducer B) (tr : list event).

Lemma calc_att_loss_trace self dec encoder_out encoder_mask ys_pad lens tr res tr' :
  _calc_att_loss self dec encoder_out encoder_mask ys_pad lens tr = (res, tr') ->
  exists evs, tr' = tr ++ EvAttentionDecoder :: evs /\ Forall att_event evs.
Proof.
  unfold _calc_att_loss.
  destruct (add_sos_eos B ys_pad _ _ _) as [ys_in ys_out].
  destruct (add_sos_eos B (reverse_pad_list B _ _ _) _ _ _) as [r_in r_out].
  cbn. destruct (decoder_forward _ _ _ _ _ _ _) as [d r].
  destruct (criterion_att self) as [crit|]; cbn.
  - destruct (Qgtb (reverse_weight self) 0); cbn; intros [= <- <-].
    + exists [EvCriterionAtt; EvCriterionAtt].
      rewrite <- !app_assoc. split; [reflexivity|].
      repeat constructor; right; reflexivity.
    + exists [EvCriterionAtt].
      rewrite <- !app_assoc. split; [reflexivity|].
      repeat constructor; right; reflexivity.
  - intros [= <- <-]. exists []. split; [reflexivity | constructor].
Qed.

Lemma forward_att_inv self encoder_out encoder_mask text tl tr res tr' :
  forward_att self encoder_out encoder_mask text tl tr = (res, tr') ->
  exists evs,
    tr' = tr ++ evs /\ Forall att_event evs
    /\ (if att_enabled self then In EvAttentionDecoder evs else evs = [])
    /\ forall x, res = Ok x -> (x = None <-> att_enabled self = false).
Proof.
  unfold forward_att, att_enabled.
  destruct (attention_decoder self) as [dec|];
    [destruct (Qneb (attention_decoder_weight self) 0)|].
  - intros H. apply bind_inv in H.
    destruct H as [([l acc] & tr1 & Hc & Hk) | (e & Hc & ->)];
      destruct (calc_att_loss_trace _ _ _ _ _ _ _ _ _ Hc) as (evs & -> & Hevs);
      exists (EvAttentionDecoder :: evs);
      (split; [try injection Hk as <- <-; reflexivity|]);
      (split; [constructor; [left; reflexivity | assumption]|]);
      (split; [left; reflexivity|]).
    + injection Hk as <- <-. intros x [= <-]. split; discriminate.
    + discriminate.
  - intros [= <- <-]. exists []. rewrite app_nil_r.
    do 3 (split; [auto|]). intros x [= <-]. tauto.
  - intros [= <- <-]. exists []. rewrite app_nil_r.
    do 3 (split; [auto|]). intros x [= <-]. tauto.
Qed.

Lemma forward_ctc_inv self encoder_out lens text tl tr res tr' :
  forward_ctc self encoder_out lens text tl tr = (res, tr') ->
  tr' = tr ++ (if ctc_enabled self then [EvCtc] else [])
  /\ exists x, res = Ok x /\ (x = None <-> ctc_enabled self = false).
Proof.
  unfold forward_ctc, ctc_enabled.
  destruct (ctc self) as [c|]; [destruct (Qneb (ctc_weight self) 0)|];
    cbn; intros [= <- <-]; rewrite ?app_nil_r; (split; [reflexivity|]);
    eexists; (split; [reflexivity|]); split; congruence.
Qed.

(** What one call of [forward] does: the calls it makes, in order, and the
    bundle it returns. *)
Lemma forward_inv self speech sl text tl tr res tr' :
  forward self speech sl text tl tr = (res, tr') ->
  (batch_unified speech sl text tl = false
   /\ res = Raise AssertionError /\ tr' = tr)
  \/
  (batch_unified speech sl text tl = true /\
   exists ev_att ev_ctc,
     tr' = tr ++ [EvEncoder; EvPredictor; EvJoint;
                  EvRnntLoss (rnnt_remap (ignore_id self) text)]
              ++ ev_att ++ ev_ctc
     /\ Forall att_event ev_att
     /\ (if att_enabled self then In EvAttentionDecoder ev_att else ev_att = [])
     /\ (ev_ctc = [] \/ (ev_ctc = [EvCtc] /\ ctc_enabled self = true))
     /\ forall b, res = Ok b ->
          ev_ctc = (if ctc_enabled self then [EvCtc] else [])
          /\ (loss_att b = None <-> att_enabled self = false)
          /\ (loss_ctc b = None <-> ctc_enabled self = false)
          /\ loss b
             = add_term (add_term (loss_rnnt b) (ctc_weight self) (loss_ctc b))
                 (attention_decoder_weight self) (loss_att b)).
Proof.
  unfold forward. intros H.
  apply bind_inv in H. destruct H as [([] & tr1 & Ha & H) | (e & Ha & ->)];
    apply assert_inv in Ha; destruct Ha as [-> Ha];
    destruct (batch_unified speech sl text tl); try discriminate.
  2:{ left. injection Ha as ->. auto. }
  right. split; [reflexivity|]. clear Ha.
  cbn in H. destruct (encoder self speech sl None None) as [encoder_out encoder_mask].
  match type of H with
  | (let (_, _) := ?m ?t in _) = _ => destruct (m t) as [ra tra] eqn:Ea
  end.
  apply forward_att_inv in Ea. destruct Ea as (evs & -> & Hevs & Hen & Hx).
  assert (Htr : forall l, ((((tr ++ [EvEncoder]) ++ [EvPredictor]) ++ [EvJoint]) ++
     [EvRnntLoss (rnnt_remap (ignore_id self) text)]) ++ l
     = tr ++ [EvEncoder; EvPredictor; EvJoint;
              EvRnntLoss (rnnt_remap (ignore_id self) text)] ++ l).
  { intros l. now rewrite <- !app_assoc. }
  destruct ra as [a|e].
  - match type of H with
    | (let (_, _) := ?m ?t in _) = _ => destruct (m t) as [rc trc] eqn:Ec
    end.
    apply forward_ctc_inv in Ec. destruct Ec as (-> & c & -> & Hc).
    injection H as <- <-.
    exists evs, (if ctc_enabled self then [EvCtc] else []).
    rewrite <- app_assoc, Htr.
    split; [reflexivity|]. split; [assumption|]. split; [assumption|].
    split. { destruct (ctc_enabled self); auto. }
    intros b [= <-]. cbn.
    split; [reflexivity|]. split; [apply Hx; reflexivity|].
    split; [exact Hc | reflexivity].
  - injection H as <- <-. exists evs, []. rewrite Htr, app_nil_r.
    split; [reflexivity|]. split; [assumption|]. split; [assumption|].
    split; [now left|]. discriminate.
Qed.

End ForwardFacts.

(** ** The small model runs *)

Example toy_init :
  Transducer_init 3 0 Toy.encoder_ Toy.predictor_ Toy.joint_echo
    (Some Toy.bi_decoder) (Some Toy.ctc_head) (1 # 4) (-1) 0 0 false
    (1 # 2) (1 # 4) Toy.search
  = Ok Toy.model.
Proof. reflexivity. Qed.

Example toy_greedy_five_frames :
  run (greedy_search 500 Toy.model Toy.speech5 [5%Z] (-1) (-1) false)
  = (Ok (Some [[7%Z]]),
     [EvEncoder; EvPredictorStep 0; EvJoint; EvPredictorStep 0; EvJoint;
      EvPredictorStep 0; EvJoint; EvPredictorStep 7; EvJoint;
      EvPredictorStep 7; EvJoint; EvPredictorStep 7; EvJoint]).
Proof. vm_compute. reflexivity. Qed.

Example toy_greedy_stuck :
  fst (run (greedy_search 500 Toy.model_stuck Toy.speech2 [2%Z] (-1) (-1) false))
  = Ok (Some [repeat 1%Z 200]).
Proof. vm_compute. reflexivity. Qed.

Example toy_rescoring :
  run (transducer_attention_rescoring Toy.model Toy.speech2 [2%Z] 2 (-1) (-1)
         false 0 0 1 0 1 0)
  = (Ok ([1%Z], Fin (-2)),
     [EvBeamSearch; EvPredictor; EvJoint; EvRnntLoss [[1; 0]; [1; 1]]%Z;
      EvAttentionDecoder]).
Proof. vm_compute. reflexivity. Qed.

(** ** The greedy decoding loop *)

Section GreedyFacts.

Context {B : Backend}.
Implicit Types (self : Transducer B) (st : gstate B) (evs : list event).

Ltac body_cases st H :=
  unfold greedy_body in H;
  destruct (prev_out_nblk st) eqn:?;
  [ destruct (forward_step _ _ _ _ _) as [[? ?] ?]
  | destruct (pred_out_step st) eqn:?; cbn in H; [|discriminate H] ];
  cbn in H;
  match type of H with
  | context [(?y =? blank ?s)%Z] => destruct (y =? blank s)%Z eqn:?
  end;
  cbn in H;
  try (destruct (state_out st) as [[? ?]|] eqn:?; cbn in H;
       [|discriminate H]);
  match type of H with
  | context [(per_frame_max_noblk <=? ?c)%Z] =>
      destruct (per_frame_max_noblk <=? c)%Z eqn:?
  | _ => idtac
  end;
  cbn in H; injection H as <- <-; cbn.

(** One pass, read off the code: [y] is the arg-max label of the pass. *)
Lemma greedy_body_spec self enc st evs st' :
  greedy_body self enc st = Ok (evs, st') ->
  exists y,
    evs = (if prev_out_nblk st then [EvPredictorStep (pred_input_step st)]
           else []) ++ [EvJoint]
    /\ ((y = blank self
         /\ hyps st' = hyps st
         /\ t st' = (t st + 1)%Z
         /\ per_frame_noblk st' = 0%Z
         /\ pred_input_step st' = pred_input_step st
         /\ prev_out_nblk st'
            = (if (per_frame_max_noblk <=? per_frame_noblk st)%Z then false
               else prev_out_nblk st))
        \/
        (y <> blank self
         /\ hyps st' = hyps st ++ [y]
         /\ pred_input_step st' = y
         /\ if (per_frame_max_noblk <=? per_frame_noblk st + 1)%Z
            then t st' = (t st + 1)%Z /\ per_frame_noblk st' = 0%Z
                 /\ prev_out_nblk st' = false
            else t st' = t st
                 /\ per_frame_noblk st' = (per_frame_noblk st + 1)%Z
                 /\ prev_out_nblk st' = true)).
Proof.
  intros H. body_cases st H;
    match goal with
    | E : (?y =? blank self)%Z = _ |- _ =>
        exists y; split; [reflexivity|];
        first [ apply Z.eqb_eq in E; left | apply Z.eqb_neq in E; right ]
    end;
    repeat match goal with
           | E : (_ <=? _)%Z = _ |- _ => rewrite E
           end;
    repeat split; auto.
Qed.

Lemma greedy_body_ginv self enc st evs st' :
  ginv st -> greedy_body self enc st = Ok (evs, st') ->
  pred_out_step st' <> None /\ state_out st' <> None.
Proof.
  intros Hi H. body_cases st H; split; try discriminate;
    destruct Hi as [Hi | [_ Hi]]; congruence.
Qed.

Lemma greedy_body_total self enc st :
  ginv st -> exists evs st', greedy_body self enc st = Ok (evs, st').
Proof.
  intros Hi. unfold greedy_body.
  destruct (prev_out_nblk st) eqn:Ep.
  - destruct (forward_step _ _ _ _ _) as [[o m] c]. cbn.
    destruct (_ =? _)%Z; cbn; eauto.
  - destruct Hi as [Hi | [Hp Hs]]; [congruence|].
    destruct (pred_out_step st) as [p|]; [|congruence].
    destruct (state_out st) as [[m c]|]; [|congruence].
    cbn. destruct (_ =? _)%Z; cbn; eauto.
Qed.


Lemma greedy_body_progress self enc st evs st' :
  greedy_body self enc st = Ok (evs, st') ->
  t st' = (t st + 1)%Z
  \/ (t st' = t st
      /\ per_frame_noblk st' = (per_frame_noblk st + 1)%Z
      /\ (per_frame_noblk st' < per_frame_max_noblk)%Z).
Proof.
  intros H. destruct (greedy_body_spec _ _ _ _ _ H) as (y & _ & [Hb | Hn]).
  - left. tauto.
  - destruct Hn as (_ & _ & _ & Hn).
    destruct (per_frame_max_noblk <=? per_frame_noblk st + 1)%Z eqn:E.
    + left. tauto.
    + right. apply Z.leb_gt in E. destruct Hn as (-> & -> & _). auto.
Qed.

Lemma greedy_body_hyps self enc st evs st' :
  greedy_body self enc st = Ok (evs, st') ->
  ~ In (blank self) (hyps st) -> ~ In (blank self) (hyps st').
Proof.
  intros H Hno. destruct (greedy_body_spec _ _ _ _ _ H) as (y & _ & [Hb | Hn]).
  - destruct Hb as (_ & -> & _). exact Hno.
  - destruct Hn as (Hy & -> & _). rewrite in_app_iff. cbn.
    intros [Hin | [-> | []]]; [apply Hno, Hin | apply Hy; reflexivity].
Qed.

(** *** The loop as a relation and as a function *)

Lemma loop_runs_functional self enc L n1 n2 st evs1 evs2 st1 st2 :
  loop_runs self enc L n1 st evs1 st1 ->
  loop_runs self enc L n2 st evs2 st2 ->
  n1 = n2 /\ evs1 = evs2 /\ st1 = st2.
Proof.
  intros H1. revert n2 evs2 st2.
  induction H1 as [st Hc | n st evs sta evs' stb Hc Hb Hr IH];
    intros n2 evs2 st2 H2; inversion H2; subst; try congruence; auto.
  match goal with
  | Hb' : greedy_body _ _ st = Ok (?e, ?s) |- _ =>
      rewrite Hb in Hb'; injection Hb' as <- <-
  end.
  match goal with
  | Hr' : loop_runs _ _ _ _ sta _ _ |- _ =>
      destruct (IH _ _ _ Hr') as (-> & -> & ->)
  end.
  auto.
Qed.

Lemma loop_runs_greedy_loop self enc L n st evs st' :
  loop_runs self enc L n st evs st' ->
  forall fuel tr, (n <= fuel)%nat ->
    greedy_loop fuel self enc L st tr = (Ok (Some st'), tr ++ evs).
Proof.
  induction 1 as [st Hc | n st evs sta evs' stb Hc Hb Hr IH]; intros fuel tr Hf.
  - destruct fuel; cbn; rewrite Hc; cbn; now rewrite app_nil_r.
  - destruct fuel as [|fuel]; [lia|]. cbn. rewrite Hc. cbn.
    unfold lift. rewrite Hb. cbn. rewrite IH by lia.
    now rewrite app_assoc.
Qed.

Lemma loop_runs_out_of_fuel self enc L n st evs st' :
  loop_runs self enc L n st evs st' ->
  forall fuel tr, (fuel < n)%nat ->
    fst (greedy_loop fuel self enc L st tr) = Ok None.
Proof.
  induction 1 as [st Hc | n st evs sta evs' stb Hc Hb Hr IH]; intros fuel tr Hf.
  - lia.
  - destruct fuel as [|fuel]; cbn; rewrite Hc; cbn; [reflexivity|].
    unfold lift. rewrite Hb. cbn. apply IH. lia.
Qed.

Lemma loop_runs_hyps self enc L n st evs st' :
  loop_runs self enc L n st evs st' ->
  ~ In (blank self) (hyps st) -> ~ In (blank self) (hyps st').
Proof.
  induction 1; eauto using greedy_body_hyps.
Qed.

(** The loop leaves within [100 * (L - t) - per_frame_noblk] passes. *)
Lemma loop_runs_exists self enc L (k : nat) :
  forall st,
    ginv st ->
    (0 <= per_frame_noblk st < per_frame_max_noblk)%Z ->
    (per_frame_max_noblk * (L - t st) - per_frame_noblk st <= Z.of_nat k)%Z ->
    exists n evs st',
      loop_runs self enc L n st evs st'
      /\ (Z.of_nat n
          <= Z.max 0 (per_frame_max_noblk * (L - t st) - per_frame_noblk st))%Z.
Proof.
  unfold per_frame_max_noblk.
  induction k as [|k IH]; intros st Hi Hc Hk.
  - exists 0%nat, [], st. split; [|lia].
    constructor. apply Z.ltb_ge. lia.
  - destruct (t st <? L)%Z eqn:Et.
    2:{ exists 0%nat, [], st. split; [now constructor | lia]. }
    apply Z.ltb_lt in Et.
    destruct (greedy_body_total self enc _ Hi) as (evs & st1 & Hb).
    pose proof (greedy_body_ginv _ _ _ _ _ Hi Hb) as Hg.
    destruct (greedy_body_spec _ _ _ _ _ Hb) as (y & _ & Hy).
    assert (Hst1 : (0 <= per_frame_noblk st1 < 100)%Z
                   /\ (100 * (L - t st1) - per_frame_noblk st1
                       <= 100 * (L - t st) - per_frame_noblk st - 1)%Z).
    { destruct Hy as [(_ & _ & -> & -> & _) | (_ & _ & _ & Hy)]; [lia|].
      unfold per_frame_max_noblk in Hy.
      destruct (100 <=? per_frame_noblk st + 1)%Z eqn:E.
      - destruct Hy as (-> & -> & _). lia.
      - apply Z.leb_gt in E. destruct Hy as (-> & -> & _). lia. }
    destruct Hst1 as [Hc1 Hm1].
    destruct (IH st1) as (n & evs' & st2 & Hr & Hn);
      [right; exact Hg | exact Hc1 | lia |].
    exists (S n), (evs ++ evs'), st2. split.
    + econstructor; eauto. now apply Z.ltb_lt.
    + lia.
Qed.

Lemma count_true_nonneg (row : list bool) : (0 <= count_true row)%Z.
Proof. unfold count_true. lia. Qed.

Lemma mask_sum_nonneg (m : Mask) : (0 <= mask_sum m)%Z.
Proof.
  unfold mask_sum. induction m as [|row m IH]; cbn; [lia|].
  pose proof (count_true_nonneg row). lia.
Qed.

Lemma greedy_init_fields self :
  t (greedy_init self) = 0%Z
  /\ hyps (greedy_init self) = []
  /\ prev_out_nblk (greedy_init self) = true
  /\ per_frame_noblk (greedy_init self) = 0%Z.
Proof.
  unfold greedy_init. destruct (init_state _ _ _) as [m c]. cbn. auto.
Qed.

(** From the initial locals the loop makes at most [100 * L] passes. *)
Lemma greedy_loop_runs self enc L :
  (0 <= L)%Z ->
  exists n evs st',
    loop_runs self enc L n (greedy_init self) evs st'
    /\ (Z.of_nat n <= per_frame_max_noblk * L)%Z
    /\ ~ In (blank self) (hyps st').
Proof.
  intros HL.
  destruct (greedy_init_fields self) as (Ht & Hh & Hp & Hc).
  destruct (loop_runs_exists self enc L
              (Z.to_nat (per_frame_max_noblk * L)) (greedy_init self))
    as (n & evs & st' & Hr & Hn).
  - left. exact Hp.
  - rewrite Hc. unfold per_frame_max_noblk. lia.
  - rewrite Ht, Hc. unfold per_frame_max_noblk. lia.
  - exists n, evs, st'. split; [exact Hr|]. split.
    + rewrite Ht, Hc in Hn. unfold per_frame_max_noblk in *. lia.
    + apply (loop_runs_hyps _ _ _ _ _ _ _ Hr). rewrite Hh. intros [].
Qed.

(** [greedy_search] once its checks pass and the loop has run. *)
Lemma greedy_search_run self speech sl dcs ndlc ss fuel tr n evs st' :
  greedy_checks speech sl dcs = true ->
  loop_runs self
    (fst (encoder self speech sl (Some (-1)%Z) (Some (-1)%Z)))
    (frames self speech sl) n (greedy_init self) evs st' ->
  (n <= fuel)%nat ->
  greedy_search fuel self speech sl dcs ndlc ss tr
  = (Ok (Some [hyps st']), tr ++ EvEncoder :: evs).
Proof.
  unfold greedy_checks, greedy_search, frames. intros Hc Hr Hf.
  apply andb_prop in Hc. destruct Hc as [Hc H3].
  apply andb_prop in Hc. destruct Hc as [H1 H2].
  rewrite H1, H2, H3. cbn.
  destruct (encoder self speech sl (Some (-1)%Z) (Some (-1)%Z)) as [enc mask].
  cbn in Hr. rewrite (loop_runs_greedy_loop _ _ _ _ _ _ _ Hr _ _ Hf).
  now rewrite <- app_assoc.
Qed.

Lemma greedy_search_out_of_fuel self speech sl dcs ndlc ss fuel tr n evs st' :
  greedy_checks speech sl dcs = true ->
  loop_runs self
    (fst (encoder self speech sl (Some (-1)%Z) (Some (-1)%Z)))
    (frames self speech sl) n (greedy_init self) evs st' ->
  (fuel < n)%nat ->
  fst (greedy_search fuel self speech sl dcs ndlc ss tr) = Ok None.
Proof.
  unfold greedy_checks, greedy_search, frames. intros Hc Hr Hf.
  apply andb_prop in Hc. destruct Hc as [Hc H3].
  apply andb_prop in Hc. destruct Hc as [H1 H2].
  rewrite H1, H2, H3. cbn -[mask_sum greedy_loop greedy_init].
  destruct (encoder self speech sl (Some (-1)%Z) (Some (-1)%Z)) as [enc mask].
  cbn [fst snd] in Hr.
  pose proof (loop_runs_out_of_fuel _ _ _ _ _ _ _ Hr fuel (tr ++ [EvEncoder]) Hf)
    as Hn.
  destruct (greedy_loop fuel self enc (mask_sum mask) (greedy_init self)
              (tr ++ [EvEncoder])) as [r tr1].
  cbn [fst] in Hn. subst r. reflexivity.
Qed.

Lemma greedy_search_checks_fail self speech sl dcs ndlc ss fuel tr :
  greedy_checks speech sl dcs = false ->
  greedy_search fuel self speech sl dcs ndlc ss tr = (Raise AssertionError, tr).
Proof.
  unfold greedy_checks, greedy_search. intros Hc.
  destruct (length speech =? 1)%nat; cbn in *; [|reflexivity].
  destruct (length speech =? length sl)%nat; cbn in *; [|reflexivity].
  destruct (dcs =? 0)%Z; cbn in *; [reflexivity | discriminate].
Qed.

End GreedyFacts.

(** ** Attention rescoring *)

Section RescoringFacts.

Context {B : Backend}.
Implicit Types (self : Transducer B) (tr : list event).

(** No attribute named [decoder] is ever bound on [self]. *)
Lemma getattr_decoder self : getattr self "decoder" = Raise AttributeError.
Proof. reflexivity. Qed.

Lemma in_app_single {A} (l : list A) (x y : A) :
  In y (l ++ [x]) -> In y l \/ y = x.
Proof.
  rewrite in_app_iff. cbn. intros [H | [H | []]]; auto.
Qed.

(** What the part of the method before the scoring loop does. *)
Lemma rescoring_prepare_inv self speech sl beam_size dcs ndlc ss rw scw stw
    tr res tr' :
  rescoring_prepare self speech sl beam_size dcs ndlc ss rw scw stw tr
  = (res, tr') ->
  let beam := fst (bs self speech sl dcs beam_size ndlc None scw stw) in
  let hyps_ := map (fun s => tl (hyp s)) beam in
  (forall labels,
      In (EvRnntLoss labels) tr' ->
      In (EvRnntLoss labels) tr
      \/ exists hyps_pad,
           pad_sequence hyps_ (ignore_id self) = Ok hyps_pad
           /\ labels = rnnt_remap (ignore_id self) hyps_pad)
  /\ (forall inp,
        res = Ok inp ->
        Qgtb rw 0 = false
        /\ ri_hyps inp = hyps_
        /\ hyps_ <> []
        /\ ri_beam_score inp = map score beam
        /\ exists loss_td,
             ri_td_score inp = map (fun l => l * (-1 # 1)) loss_td)
  /\ (Qgtb rw 0 = true ->
      tr' = tr
      /\ (res = Raise AttributeError
          \/ ((length speech =? length sl)%nat && negb (dcs =? 0)%Z = false
              /\ res = Raise AssertionError))).
Proof.
  unfold rescoring_prepare. cbn -[pad_sequence rnnt_remap].
  destruct (length speech =? length sl)%nat; cbn -[pad_sequence rnnt_remap].
  2:{ intros [= <- <-]. repeat split; auto; discriminate. }
  destruct (dcs =? 0)%Z; cbn -[pad_sequence rnnt_remap].
  { intros [= <- <-]. repeat split; auto; discriminate. }
  destruct (Qgtb rw 0); cbn -[pad_sequence rnnt_remap].
  { intros [= <- <-]. repeat split; auto; discriminate. }
  destruct (length speech =? 1)%nat; cbn -[pad_sequence rnnt_remap].
  2:{ intros [= <- <-]. repeat split; auto; discriminate. }
  destruct (bs self speech sl dcs beam_size ndlc None scw stw)
    as [beam encoder_out]. cbn -[pad_sequence rnnt_remap].
  destruct (_ =? beam_size)%Z; cbn -[pad_sequence rnnt_remap].
  2:{ intros [= <- <-]. split; [|split; discriminate].
      intros labels Hin. apply in_app_single in Hin.
      destruct Hin as [Hin | Hin]; [auto | discriminate]. }
  destruct (pad_sequence _ _) as [hyps_pad|e] eqn:Ep.
  2:{ intros [= <- <-]. split; [|split; discriminate].
      intros labels Hin. apply in_app_single in Hin.
      destruct Hin as [Hin | Hin]; [auto | discriminate]. }
  assert (Hne : map (fun s : BeamHyp => tl (hyp s)) beam <> []).
  { intros Hn. rewrite Hn in Ep. discriminate. }
  destruct (add_sos_eos B hyps_pad _ _ _) as [hp x1].
  destruct (add_sos_eos B (reverse_pad_list B _ _ _) _ _ _) as [rhp x2].
  assert (Htr : forall labels l,
    In (EvRnntLoss labels)
      ((((((tr ++ [EvBeamSearch]) ++ [EvPredictor]) ++ [EvJoint]) ++
        [EvRnntLoss (rnnt_remap (ignore_id self) hyps_pad)]) ++ l)) ->
    (forall e, In e l -> e = EvAttentionDecoder) ->
    In (EvRnntLoss labels) tr
    \/ exists hyps_pad0,
         Ok hyps_pad = Ok hyps_pad0
         /\ labels = rnnt_remap (ignore_id self) hyps_pad0).
  { intros labels l Hin Hl. rewrite in_app_iff in Hin.
    destruct Hin as [Hin | Hin]; [|apply Hl in Hin; discriminate].
    apply in_app_single in Hin. destruct Hin as [Hin | Hin].
    - repeat (apply in_app_single in Hin;
              destruct Hin as [Hin | Hin]; [|discriminate]).
      auto.
    - injection Hin as ->. right. eauto. }
  destruct (attention_decoder self) as [dec|].
  - destruct (decoder_forward _ _ _ _ _ _ _) as [d r].
    intros [= <- <-]. split; [|split; [|discriminate]].
    + intros labels Hin. apply (Htr labels [EvAttentionDecoder]); [exact Hin|].
      intros e [<- | []]. reflexivity.
    + intros inp [= <-]. cbn. repeat split; auto. eauto.
  - intros [= <- <-]. split; [|split; discriminate].
    intros labels Hin. apply (Htr labels []); [|intros e []].
    now rewrite app_nil_r.
Qed.

(** With [reverse_weight > 0] the method stops at its reverse-decoder check,
    whatever the attention decoder is. *)
Lemma rescoring_reverse_always_raises self speech sl beam_size dcs ndlc ss
    rw cw aw tw scw stw tr :
  Qgtb rw 0 = true ->
  exists e,
    transducer_attention_rescoring self speech sl beam_size dcs ndlc ss rw cw
      aw tw scw stw tr = (Raise e, tr)
    /\ ((length speech =? length sl)%nat && negb (dcs =? 0)%Z = true ->
        e = AttributeError).
Proof.
  intros Hrw. unfold transducer_attention_rescoring.
  destruct (rescoring_prepare self speech sl beam_size dcs ndlc ss rw scw stw
              tr) as [res tr'] eqn:Hp.
  destruct (rescoring_prepare_inv _ _ _ _ _ _ _ _ _ _ _ _ _ Hp)
    as (_ & _ & Hr).
  destruct (Hr Hrw) as [-> [-> | [Hc ->]]]; rewrite bind_unfold, Hp.
  - exists AttributeError. auto.
  - exists AssertionError. split; [reflexivity|]. congruence.
Qed.

End RescoringFacts.

(** ** The scoring loop *)

Lemma gt_xscore_iff (s : Q) (best : xscore) :
  gt_xscore s best = true <-> beats s best.
Proof.
  destruct best as [|b]; cbn; [tauto|].
  unfold Qgtb. rewrite negb_true_iff.
  split; intros H.
  - apply Qnot_le_lt. intros Hle. apply Qle_bool_iff in Hle. congruence.
  - destruct (Qle_bool s b) eqn:E; [|reflexivity].
    apply Qle_bool_iff in E. exfalso. exact (Qlt_not_le _ _ H E).
Qed.

Lemma gt_xscore_false (s : Q) (best : xscore) :
  gt_xscore s best = false -> exists b, best = Fin b /\ s <= b.
Proof.
  destruct best as [|b]; cbn; [discriminate|].
  unfold Qgtb. rewrite negb_false_iff. intros H.
  exists b. split; [reflexivity|]. now apply Qle_bool_iff.
Qed.

Section LoopFacts.

Variables (decoder_out r_decoder_out : Logits3).
Variables (td_score beam_score : list Q).
Variables (eos_ : Z) (rw cw aw tw : Q).

Local Abbreviation score_of :=
  (hyp_score decoder_out r_decoder_out td_score beam_score eos_ rw cw aw tw).
Local Abbreviation loop :=
  (rescoring_loop decoder_out r_decoder_out td_score beam_score eos_ rw cw aw
     tw).

Lemma rescoring_loop_cons (i : nat) (h : list Z) (rest : list (list Z))
    (best : xscore) (bi : nat) :
  loop i (h :: rest) best bi
  = match score_of i h with
    | Ok s =>
        if gt_xscore s best then loop (S i) rest (Fin s) i
        else loop (S i) rest best bi
    | Raise e => Raise e
    end.
Proof. reflexivity. Qed.

(** The loop keeps the first hypothesis whose score is the largest. *)
Lemma rescoring_loop_spec (f : nat -> Q) :
  forall (hyps_ : list (list Z)) (i : nat) (best : xscore) (bi : nat),
    (forall k h, nth_error hyps_ k = Some h -> score_of (i + k)%nat h = Ok (f (i + k)%nat)) ->
    exists best' bi',
      loop i hyps_ best bi = Ok (best', bi')
      /\ ((best' = best /\ bi' = bi
           /\ forall k, (k < length hyps_)%nat -> ~ beats (f (i + k)%nat) best)
          \/
          (best' = Fin (f bi')
           /\ (i <= bi' < i + length hyps_)%nat
           /\ beats (f bi') best
           /\ (forall k, (i <= k < i + length hyps_)%nat -> f k <= f bi')
           /\ (forall k, (i <= k < bi')%nat -> f k < f bi'))).
Proof.
  induction hyps_ as [|h rest IH]; intros i best bi Hs.
  - exists best, bi. split; [reflexivity|]. left.
    repeat split. cbn. intros k Hk. lia.
  - pose proof (Hs 0%nat h eq_refl) as H0. rewrite Nat.add_0_r in H0.
    assert (Hrest : forall k h', nth_error rest k = Some h' ->
              score_of (S i + k)%nat h' = Ok (f (S i + k)%nat)).
    { intros k h' Hk. specialize (Hs (S k) h' Hk).
      now replace (i + S k)%nat with (S i + k)%nat in Hs by lia. }
    rewrite rescoring_loop_cons, H0. cbn [length].
    destruct (gt_xscore (f i) best) eqn:Eg.
    + apply gt_xscore_iff in Eg.
      destruct (IH (S i) (Fin (f i)) i Hrest) as (best' & bi' & Hl & Hcase).
      exists best', bi'. split; [exact Hl|]. right.
      destruct Hcase as [(-> & -> & Hno) | (-> & Hr & Hb & Hle & Hlt)].
      * split; [reflexivity|]. split; [lia|].
        split; [exact Eg|]. split; [|intros k Hk; lia].
        intros k Hk. destruct (Nat.eq_dec k i) as [->|Hki]; [apply Qle_refl|].
        apply Qnot_lt_le. replace k with (S i + (k - S i))%nat by lia.
        apply Hno. lia.
      * cbn in Hb. split; [reflexivity|]. split; [lia|].
        split.
        { destruct best as [|b]; cbn in *; [exact I|].
          now apply Qlt_trans with (f i). }
        split.
        { intros k Hk. destruct (Nat.eq_dec k i) as [->|Hki];
            [now apply Qlt_le_weak | apply Hle; lia]. }
        { intros k Hk. destruct (Nat.eq_dec k i) as [->|Hki];
            [exact Hb | apply Hlt; lia]. }
    + destruct (gt_xscore_false _ _ Eg) as (b & -> & Hfb).
      destruct (IH (S i) (Fin b) bi Hrest) as (best' & bi' & Hl & Hcase).
      exists best', bi'. split; [exact Hl|].
      destruct Hcase as [(-> & -> & Hno) | (-> & Hr & Hb & Hle & Hlt)].
      * left. repeat split.
        intros k Hk. destruct k as [|k].
        { rewrite Nat.add_0_r. cbn. now apply Qle_not_lt. }
        { replace (i + S k)%nat with (S i + k)%nat by lia. apply Hno.
          cbn in Hk. lia. }
      * right. cbn in Hb. split; [reflexivity|]. split; [cbn; lia|].
        split; [exact Hb|]. split.
        { intros k Hk. destruct (Nat.eq_dec k i) as [->|Hki].
          - apply Qlt_le_weak. now apply Qle_lt_trans with b.
          - apply Hle. cbn in Hk. lia. }
        { intros k Hk. destruct (Nat.eq_dec k i) as [->|Hki].
          - now apply Qle_lt_trans with b.
          - apply Hlt. lia. }
Qed.

(** [select_best] on a non-empty list of hypotheses. *)
Lemma select_best_spec (f : nat -> Q) (hyps_ : list (list Z)) :
  hyps_ <> [] ->
  (forall k h, nth_error hyps_ k = Some h -> score_of k h = Ok (f k)) ->
  exists b h,
    select_best decoder_out r_decoder_out td_score beam_score eos_ rw cw aw
      tw hyps_ = Ok (h, Fin (f b))
    /\ nth_error hyps_ b = Some h
    /\ (forall k, (k < length hyps_)%nat -> f k <= f b)
    /\ (forall k, (k < b)%nat -> f k < f b).
Proof.
  intros Hne Hs.
  destruct (rescoring_loop_spec f hyps_ 0 NegInf 0 Hs)
    as (best' & bi' & Hl & [(_ & _ & Hno) | (-> & Hr & _ & Hle & Hlt)]).
  { exfalso. destruct hyps_ as [|h0 rest]; [congruence|].
    apply (Hno 0%nat); cbn; [lia | exact I]. }
  destruct (nth_error hyps_ bi') as [h|] eqn:Eh.
  2:{ apply nth_error_None in Eh. lia. }
  exists bi', h. unfold select_best. rewrite Hl. cbn.
  unfold get. rewrite Eh. cbn.
  split; [reflexivity|]. split; [reflexivity|]. split.
  - intros k Hk. apply Hle. lia.
  - intros k Hk. apply Hlt. lia.
Qed.

End LoopFacts.

(** ** The fused score *)

Lemma attention_score_td (decoder_out r_decoder_out : Logits3)
    (td_score : list Q) (eos_ : Z) (rw : Q) (i : nat) (h : list Z) (a td : Q) :
  attention_score decoder_out r_decoder_out td_score eos_ rw i h = Ok (a, td) ->
  get td_score i = Ok td.
Proof.
  unfold attention_score.
  destruct (forward_sum decoder_out i 0 h 0) as [s|]; cbn; [|discriminate].
  destruct (get decoder_out i) as [row|]; cbn; [|discriminate].
  destruct (get row (length h)) as [col|]; cbn; [|discriminate].
  destruct (np_index col eos_) as [e|]; cbn; [|discriminate].
  destruct (get td_score i) as [t0|]; cbn; [|discriminate].
  destruct (Qgtb rw 0).
  - destruct (reverse_sum r_decoder_out i (length h) 0 h 0) as [r|]; cbn;
      [|discriminate].
    destruct (get r_decoder_out i) as [rrow|]; cbn; [|discriminate].
    destruct (get rrow (length h)) as [rcol|]; cbn; [|discriminate].
    destruct (np_index rcol eos_) as [re|]; cbn; [|discriminate].
    intros [= _ <-]. reflexivity.
  - intros [= _ <-]. reflexivity.
Qed.

Lemma get_map {A C} (g : A -> C) (l : list A) (i : nat) (y : C) (d : A) :
  get (map g l) i = Ok y -> y = g (nth i l d) /\ (i < length l)%nat.
Proof.
  unfold get. rewrite nth_error_map.
  destruct (nth_error l i) as [x|] eqn:E; cbn; [|discriminate].
  intros [= <-]. split.
  - f_equal. symmetry. now apply nth_error_nth.
  - apply nth_error_Some. congruence.
Qed.

Lemma get_nth {A} (l : list A) (i : nat) (d : A) :
  (i < length l)%nat -> get l i = Ok (nth i l d).
Proof.
  intros H. unfold get.
  destruct (nth_error l i) as [x|] eqn:E.
  - f_equal. symmetry. now apply nth_error_nth.
  - apply nth_error_None in E. lia.
Qed.

(** The scoring loop on well-shaped tensors: it returns the first
    hypothesis whose fused score is the largest, with that score. *)
Lemma select_best_fused (decoder_out r_decoder_out : Logits3)
    (loss_td beam_score : list Q) (eos_ : Z) (rw cw aw tw : Q)
    (hyps_ : list (list Z)) (attn : nat -> Q) :
  hyps_ <> [] ->
  length beam_score = length hyps_ ->
  (forall i h,
      nth_error hyps_ i = Some h ->
      exists td,
        attention_score decoder_out r_decoder_out
          (map (fun l => l * (-1 # 1)) loss_td) eos_ rw i h
        = Ok (attn i, td)) ->
  exists b h s,
    select_best decoder_out r_decoder_out
      (map (fun l => l * (-1 # 1)) loss_td) beam_score eos_ rw cw aw tw hyps_
    = Ok (h, Fin s)
    /\ nth_error hyps_ b = Some h
    /\ s == fused_score aw cw tw (attn b) (nth b beam_score 0) (nth b loss_td 0)
    /\ (forall i, (i < length hyps_)%nat ->
          fused_score aw cw tw (attn i) (nth i beam_score 0) (nth i loss_td 0)
          <= fused_score aw cw tw (attn b) (nth b beam_score 0)
               (nth b loss_td 0))
    /\ (forall i, (i < b)%nat ->
          fused_score aw cw tw (attn i) (nth i beam_score 0) (nth i loss_td 0)
          < fused_score aw cw tw (attn b) (nth b beam_score 0)
              (nth b loss_td 0)).
Proof.
  intros Hne Hlen Hatt.
  set (f := fun k : nat =>
              attn k * aw + nth k beam_score 0 * cw
              + (nth k loss_td 0 * (-1 # 1)) * tw).
  assert (Hf : forall k,
             f k == fused_score aw cw tw (attn k) (nth k beam_score 0)
                      (nth k loss_td 0)).
  { intros k. unfold f, fused_score. ring. }
  destruct (select_best_spec decoder_out r_decoder_out
              (map (fun l => l * (-1 # 1)) loss_td) beam_score eos_ rw cw aw
              tw f hyps_ Hne) as (b & h & Hsel & Hb & Hle & Hlt).
  { intros k h Hk. destruct (Hatt k h Hk) as (td & Ha).
    unfold hyp_score. rewrite Ha. cbn.
    apply attention_score_td in Ha.
    destruct (get_map _ _ _ _ 0 Ha) as [-> _].
    rewrite (get_nth beam_score k 0).
    - reflexivity.
    - rewrite Hlen. apply nth_error_Some. congruence. }
  exists b, h, (f b). split; [exact Hsel|]. split; [exact Hb|].
  split; [apply Hf|]. split.
  - intros i Hi. rewrite <- !Hf. now apply Hle.
  - intros i Hi. rewrite <- !Hf. now apply Hlt.
Qed.

(** The part of the method before the scoring loop, run: with its checks
    passed, [reverse_weight] not positive, [beam_size] hypotheses back from
    the search and an attention decoder on the model, it makes its five
    calls and hands the loop the values named above. *)
Lemma rescoring_prepare_run {B : Backend} (self : Transducer B)
    (speech : list (Feat B)) (sl : Lens) (beam_size dcs ndlc : Z) (ss : bool)
    (rw scw stw : Q) (tr : list event) (dec : AttentionDecoder B)
    (hyps_pad : Labels) :
  rescoring_checks speech sl dcs = true ->
  Qgtb rw 0 = false ->
  Z.of_nat (length (rescoring_hyps self speech sl beam_size dcs ndlc scw stw))
  = beam_size ->
  pad_sequence (rescoring_hyps self speech sl beam_size dcs ndlc scw stw)
    (ignore_id self) = Ok hyps_pad ->
  attention_decoder self = Some dec ->
  rescoring_prepare self speech sl beam_size dcs ndlc ss rw scw stw tr
  = (Ok {| ri_hyps := rescoring_hyps self speech sl beam_size dcs ndlc scw stw;
           ri_beam_score :=
             rescoring_beam_score self speech sl beam_size dcs ndlc scw stw;
           ri_td_score :=
             map (fun l => l * (-1 # 1))
               (rescoring_loss_td self speech sl beam_size dcs ndlc scw stw
                  hyps_pad);
           ri_decoder_out :=
             log_softmax B
               (fst (rescoring_decoder_out self speech sl beam_size dcs ndlc
                       scw stw dec hyps_pad rw));
           ri_r_decoder_out :=
             log_softmax B
               (snd (rescoring_decoder_out self speech sl beam_size dcs ndlc
                       scw stw dec hyps_pad rw)) |},
     tr ++ [EvBeamSearch; EvPredictor; EvJoint;
            EvRnntLoss (rnnt_remap (ignore_id self) hyps_pad);
            EvAttentionDecoder]).
Proof.
  unfold rescoring_checks, rescoring_loss_td, rescoring_decoder_out,
    rescoring_encoder_mask, rescoring_encoder_out, rescoring_beam_score,
    rescoring_hyps, rescoring_beam.
  intros Hc Hrw Hlen Hpad Hdec.
  apply andb_prop in Hc. destruct Hc as [Hc H3].
  apply andb_prop in Hc. destruct Hc as [H1 H2].
  apply negb_true_iff in H2. apply Z.eqb_eq in Hlen.
  unfold rescoring_prepare.
  rewrite H1, H2, Hrw, H3. cbn -[pad_sequence rnnt_remap].
  destruct (bs self speech sl dcs beam_size ndlc None scw stw)
    as [beam encoder_out]. cbn [fst snd] in *.
  cbn -[pad_sequence rnnt_remap]. rewrite Hlen.
  cbn -[pad_sequence rnnt_remap]. rewrite Hpad.
  destruct (add_sos_eos B hyps_pad _ _ _) as [hp x1].
  destruct (add_sos_eos B (reverse_pad_list B _ _ _) _ _ _) as [rhp x2].
  rewrite Hdec. cbn [fst snd].
  destruct (decoder_forward dec _ _ hp _ rhp rw) as [d r].
  cbn [fst snd]. now rewrite <- !app_assoc.
Qed.

(** C4.  With the entry checks passed, [reverse_weight] not positive,
    [beam_size] hypotheses back from the beam search and an attention
    decoder on the model, let [loss_td] be what the RNN-T loss kernel
    returns for the padded hypotheses, [beam_score] the scores of the beam,
    and [attn i] the attention score the loop reads for hypothesis [i] off
    the log-softmax of the decoder's output.  If those reads succeed,
    [transducer_attention_rescoring] returns hypothesis [b] and the score
    [s], where [s] is the fused score
    [attn_weight * attn b + ctc_weight * beam_score[b]
     + transducer_weight * (- loss_td[b])], no hypothesis has a larger fused
    score, and every hypothesis before [b] has a strictly smaller one. *)
Theorem rescoring_returns_first_best_fused_score {B : Backend}
    (self : Transducer B) (speech : list (Feat B)) (sl : Lens)
    (beam_size dcs ndlc : Z) (ss : bool) (rw cw aw tw scw stw : Q)
    (tr : list event) (dec : AttentionDecoder B) (hyps_pad : Labels)
    (attn : nat -> Q) :
  let hyps_ := rescoring_hyps self speech sl beam_size dcs ndlc scw stw in
  let beam_score :=
    rescoring_beam_score self speech sl beam_size dcs ndlc scw stw in
  let loss_td :=
    rescoring_loss_td self speech sl beam_size dcs ndlc scw stw hyps_pad in
  let out :=
    rescoring_decoder_out self speech sl beam_size dcs ndlc scw stw dec
      hyps_pad rw in
  let fused := fun i : nat =>
    fused_score aw cw tw (attn i) (nth i beam_score 0) (nth i loss_td 0) in
  rescoring_checks speech sl dcs = true ->
  Qgtb rw 0 = false ->
  Z.of_nat (length hyps_) = beam_size ->
  pad_sequence hyps_ (ignore_id self) = Ok hyps_pad ->
  attention_decoder self = Some dec ->
  (forall i h,
      nth_error hyps_ i = Some h ->
      exists td,
        attention_score (log_softmax B (fst out)) (log_softmax B (snd out))
          (map (fun l => l * (-1 # 1)) loss_td) (eos self) rw i h
        = Ok (attn i, td)) ->
  exists b h s,
    transducer_attention_rescoring self speech sl beam_size dcs ndlc ss rw
      cw aw tw scw stw tr
    = (Ok (h, Fin s),
       tr ++ [EvBeamSearch; EvPredictor; EvJoint;
              EvRnntLoss (rnnt_remap (ignore_id self) hyps_pad);
              EvAttentionDecoder])
    /\ nth_error hyps_ b = Some h
    /\ s == fused b
    /\ (forall i, (i < length hyps_)%nat -> fused i <= fused b)
    /\ (forall i, (i < b)%nat -> fused i < fused b).
Proof.
  intros hyps_ beam_score loss_td out fused Hc Hrw Hlen Hpad Hdec Hatt.
  pose proof (rescoring_prepare_run self speech sl beam_size dcs ndlc ss rw
                scw stw tr dec hyps_pad Hc Hrw Hlen Hpad Hdec) as Hp.
  destruct (select_best_fused (log_softmax B (fst out))
              (log_softmax B (snd out)) loss_td beam_score (eos self) rw cw
              aw tw hyps_ attn)
    as (b & h & s & Hsel & Hb & Hs & Hle & Hlt).
  - intros Hn. subst hyps_. rewrite Hn in Hpad. discriminate Hpad.
  - subst beam_score hyps_.
    unfold rescoring_beam_score, rescoring_hyps. now rewrite !length_map.
  - exact Hatt.
  - exists b, h, s. split; [|auto].
    unfold transducer_attention_rescoring.
    rewrite bind_unfold, Hp. unfold lift. cbn [ri_decoder_out
      ri_r_decoder_out ri_td_score ri_beam_score ri_hyps].
    fold hyps_ beam_score loss_td out. now rewrite Hsel.
Qed.

Example toy_rescoring_prepare :
  rescoring_prepare Toy.model Toy.speech2 [2%Z] 2 (-1) (-1) false 0 1 0 []
  = (Ok Toy.inputs,
     [EvBeamSearch; EvPredictor; EvJoint; EvRnntLoss [[1; 0]; [1; 1]]%Z;
      EvAttentionDecoder]).
Proof. vm_compute. reflexivity. Qed.

Lemma rescoring_returns_first_best_fused_score_witness :
  exists b h s,
    transducer_attention_rescoring Toy.model Toy.speech2 [2%Z] 2 (-1) (-1)
      false 0 (1 # 4) (1 # 2) (1 # 4) 1 0 []
    = (Ok (h, Fin s),
       [] ++ [EvBeamSearch; EvPredictor; EvJoint;
              EvRnntLoss (rnnt_remap (ignore_id Toy.model) ToyMore.hyps_pad);
              EvAttentionDecoder])
    /\ nth_error (rescoring_hyps Toy.model Toy.speech2 [2%Z] 2 (-1) (-1) 1 0)
         b = Some h
    /\ s == fused_score (1 # 2) (1 # 4) (1 # 4) (Toy.attn b)
              (nth b (rescoring_beam_score Toy.model Toy.speech2 [2%Z] 2 (-1)
                        (-1) 1 0) 0)
              (nth b (rescoring_loss_td Toy.model Toy.speech2 [2%Z] 2 (-1)
                        (-1) 1 0 ToyMore.hyps_pad) 0).
Proof.
  destruct (rescoring_returns_first_best_fused_score Toy.model Toy.speech2
              [2%Z] 2 (-1) (-1) false 0 (1 # 4) (1 # 2) (1 # 4) 1 0 []
              Toy.bi_decoder ToyMore.hyps_pad Toy.attn)
    as (b & h & s & Hrun & Hb & Hs & _).
  - reflexivity.
  - reflexivity.
  - reflexivity.
  - reflexivity.
  - reflexivity.
  - intros [|[|i]] h Hh.
    + injection Hh as <-. exists (-2 # 1). vm_compute. reflexivity.
    + injection Hh as <-. exists (-2 # 1). vm_compute. reflexivity.
    + destruct i; discriminate Hh.
  - exists b, h, s. auto.
Defined.

Example toy_rescoring_uses_kernel_loss :
  run (transducer_attention_rescoring Toy.model Toy.speech2 [2%Z] 2 (-1) (-1)
         false 0 (1 # 4) (1 # 2) (1 # 4) 1 0)
  = (Ok ([1%Z], Fin (-56 # 32)),
     [EvBeamSearch; EvPredictor; EvJoint; EvRnntLoss [[1; 0]; [1; 1]]%Z;
      EvAttentionDecoder]).
Proof. vm_compute. reflexivity. Qed.

(** ** Reverse weight zero *)

Section ForwardOnlyFacts.

Variables (decoder_out r_decoder_out : Logits3).
Variables (td_score beam_score : list Q).
Variables (eos_ : Z) (cw aw tw : Q).

Lemma hyp_score_zero_reverse (i : nat) (h : list Z) :
  hyp_score decoder_out r_decoder_out td_score beam_score eos_ 0 cw aw tw i h
  = forward_only_score decoder_out td_score beam_score eos_ cw aw tw i h.
Proof.
  unfold hyp_score, attention_score, forward_only_score.
  change (Qgtb 0 0) with false.
  destruct (forward_sum decoder_out i 0 h 0) as [s|]; cbn; [|reflexivity].
  destruct (get decoder_out i) as [row|]; cbn; [|reflexivity].
  destruct (get row (length h)) as [col|]; cbn; [|reflexivity].
  destruct (np_index col eos_) as [e|]; cbn; [|reflexivity].
  destruct (get td_score i) as [t0|]; cbn; reflexivity.
Qed.

Lemma rescoring_loop_zero_reverse (hyps_ : list (list Z)) :
  forall (i : nat) (best : xscore) (bi : nat),
    rescoring_loop decoder_out r_decoder_out td_score beam_score eos_ 0 cw aw
      tw i hyps_ best bi
    = forward_only_loop decoder_out td_score beam_score eos_ cw aw tw i hyps_
        best bi.
Proof.
  induction hyps_ as [|h rest IH]; intros i best bi; [reflexivity|].
  rewrite rescoring_loop_cons, hyp_score_zero_reverse.
  change (forward_only_loop decoder_out td_score beam_score eos_ cw aw tw i
            (h :: rest) best bi)
    with (match forward_only_score decoder_out td_score beam_score eos_ cw aw
                  tw i h with
          | Ok s =>
              if gt_xscore s best
              then forward_only_loop decoder_out td_score beam_score eos_ cw
                     aw tw (S i) rest (Fin s) i
              else forward_only_loop decoder_out td_score beam_score eos_ cw
                     aw tw (S i) rest best bi
          | Raise e => Raise e
          end).
  destruct (forward_only_score decoder_out td_score beam_score eos_ cw aw tw
              i h) as [s|]; [|reflexivity].
  destruct (gt_xscore s best); apply IH.
Qed.

Lemma select_best_zero_reverse (hyps_ : list (list Z)) :
  select_best decoder_out r_decoder_out td_score beam_score eos_ 0 cw aw tw
    hyps_
  = forward_only_select decoder_out td_score beam_score eos_ cw aw tw hyps_.
Proof.
  unfold select_best, forward_only_select.
  now rewrite rescoring_loop_zero_reverse.
Qed.

End ForwardOnlyFacts.

(** C6.  With [reverse_weight = 0], [transducer_attention_rescoring] makes
    the calls and returns the result of forward-only scoring, in which the
    reverse log-probabilities are not an input at all; in particular the
    scoring loop gives the same answer on any two reverse tensors. *)
Theorem rescoring_zero_reverse_weight_is_forward_only {B : Backend}
    (self : Transducer B) (speech : list (Feat B)) (sl : Lens)
    (beam_size dcs ndlc : Z) (ss : bool) (cw aw tw scw stw : Q)
    (tr : list event) :
  transducer_attention_rescoring self speech sl beam_size dcs ndlc ss 0 cw aw
    tw scw stw tr
  = forward_only_rescoring self speech sl beam_size dcs ndlc ss cw aw tw scw
      stw tr
  /\ forall (decoder_out r1 r2 : Logits3) (td_score beam_score : list Q)
       (hyps_ : list (list Z)),
       select_best decoder_out r1 td_score beam_score (eos self) 0 cw aw tw
         hyps_
       = select_best decoder_out r2 td_score beam_score (eos self) 0 cw aw tw
           hyps_.
Proof.
  split.
  - unfold transducer_attention_rescoring, forward_only_rescoring.
    rewrite !bind_unfold.
    destruct (rescoring_prepare self speech sl beam_size dcs ndlc ss 0 scw stw
                tr) as [[inp|e] tr']; [|reflexivity].
    unfold lift. now rewrite select_best_zero_reverse.
  - intros decoder_out r1 r2 td_score beam_score hyps_.
    now rewrite !select_best_zero_reverse.
Qed.

(** With [reverse_weight = 0] the loop never reads the reverse tensor: an
    empty one does as well. *)
Example toy_rescoring_without_reverse_tensor :
  select_best Toy.table [] (ri_td_score Toy.inputs)
    (ri_beam_score Toy.inputs) 2 0 0 1 0 (ri_hyps Toy.inputs)
  = Ok ([1%Z], Fin (-2)).
Proof. vm_compute. reflexivity. Qed.

(** ** The reverse-decoder check *)

(** C2.  The model has a [BiTransformerDecoder], which can decode right to
    left; called with [reverse_weight = 0.5], rescoring raises
    [AttributeError] before it calls anything: the check reads
    [self.decoder], and [self] has no such attribute. *)
Theorem rescoring_reverse_check_raises_on_bi_decoder :
  option_map (@right_decoder Toy.backend) (attention_decoder Toy.model)
  = Some true
  /\ run (transducer_attention_rescoring Toy.model Toy.speech2 [2%Z] 2 (-1)
            (-1) false (1 # 2) 0 1 0 1 0)
     = (Raise AttributeError, []).
Proof. split; vm_compute; reflexivity. Qed.

(** ** Statements about [greedy_search] *)

Example toy_state_99 :
  passes 99 Toy.model_stuck Toy.speech2 (greedy_init Toy.model_stuck)
  = Ok Toy.state_99.
Proof. vm_compute. reflexivity. Qed.

Example toy_state_100 :
  greedy_body Toy.model_stuck Toy.speech2 Toy.state_99
  = Ok ([EvPredictorStep 1; EvJoint], Toy.state_100).
Proof. vm_compute. reflexivity. Qed.

(** C3.  When a pass emits a non-blank label and thereby brings the
    per-frame counter to the cap of 100, it advances [t] by one, resets the
    counter to 0 and clears [prev_out_nblk].  From then on the predictor is
    left alone: a pass that starts with the flag cleared and the counter at 0
    calls the joint network only; if its decision is blank, the flag stays
    cleared and the counter at 0; if its decision is a non-blank label [w],
    whichever it is, the flag is set, [w] becomes the predictor input, and
    the pass after it runs [predictor.forward_step] on [w]. *)
Theorem greedy_cap_forces_advance {B : Backend} (self : Transducer B)
    (enc : EncOut B) (st : gstate B) (evs : list event) (st' : gstate B)
    (y : Z) :
  greedy_body self enc st = Ok (evs, st') ->
  hyps st' = hyps st ++ [y] ->
  (per_frame_max_noblk <= per_frame_noblk st + 1)%Z ->
  t st' = (t st + 1)%Z
  /\ per_frame_noblk st' = 0%Z
  /\ prev_out_nblk st' = false
  /\ forall st1 evs1 st2,
       prev_out_nblk st1 = false ->
       per_frame_noblk st1 = 0%Z ->
       greedy_body self enc st1 = Ok (evs1, st2) ->
       evs1 = [EvJoint]
       /\ ((hyps st2 = hyps st1
            /\ t st2 = (t st1 + 1)%Z
            /\ prev_out_nblk st2 = false
            /\ per_frame_noblk st2 = 0%Z)
           \/
           (exists w,
               w <> blank self
               /\ hyps st2 = hyps st1 ++ [w]
               /\ prev_out_nblk st2 = true
               /\ pred_input_step st2 = w
               /\ forall evs3 st3,
                    greedy_body self enc st2 = Ok (evs3, st3) ->
                    evs3 = [EvPredictorStep w; EvJoint])).
Proof.
  intros Hb Hh Hcap.
  destruct (greedy_body_spec _ _ _ _ _ Hb) as (y0 & _ & [Hbl | Hnb]).
  { destruct Hbl as (_ & Heq & _). rewrite Heq in Hh.
    apply (f_equal (@length Z)) in Hh. rewrite length_app in Hh.
    cbn in Hh. lia. }
  destruct Hnb as (_ & _ & _ & Hcase).
  apply Z.leb_le in Hcap. rewrite Hcap in Hcase.
  destruct Hcase as (Ht & Hc & Hp).
  do 3 (split; [assumption|]).
  intros st1 evs1 st2 Hp1 Hc1 Hb1.
  destruct (greedy_body_spec _ _ _ _ _ Hb1) as (w & Hev & Hw).
  rewrite Hp1 in Hev. split; [exact Hev|].
  destruct Hw as [(_ & Hh2 & Ht2 & Hc2 & _ & Hp2) | (Hw & Hh2 & Hi2 & Hcase2)].
  - left. rewrite Hc1, Hp1 in Hp2. cbn in Hp2. auto.
  - right. exists w. rewrite Hc1 in Hcase2. cbn in Hcase2.
    destruct Hcase2 as (_ & _ & Hp2).
    do 4 (split; [assumption|]).
    intros evs3 st3 Hb3.
    destruct (greedy_body_spec _ _ _ _ _ Hb3) as (w3 & Hev3 & _).
    rewrite Hp2, Hi2 in Hev3. exact Hev3.
Qed.

Lemma greedy_cap_forces_advance_witness :
  t Toy.state_100 = (t Toy.state_99 + 1)%Z
  /\ per_frame_noblk Toy.state_100 = 0%Z
  /\ prev_out_nblk Toy.state_100 = false.
Proof.
  destruct (greedy_cap_forces_advance Toy.model_stuck Toy.speech2
              Toy.state_99 [EvPredictorStep 1; EvJoint] Toy.state_100 1%Z)
    as (Ht & Hc & Hp & _).
  - reflexivity.
  - reflexivity.
  - vm_compute. discriminate.
  - auto.
Defined.

(** C7.  With its entry checks passed and fuel for 101 passes per frame,
    [greedy_search] returns one hypothesis, and the blank id is not among
    its tokens. *)
Theorem greedy_search_never_emits_blank {B : Backend} (self : Transducer B)
    (speech : list (Feat B)) (sl : Lens) (dcs ndlc : Z) (ss : bool)
    (fuel : nat) (tr : list event) :
  greedy_checks speech sl dcs = true ->
  (Z.to_nat (frames self speech sl * 101) <= fuel)%nat ->
  exists h tr',
    greedy_search fuel self speech sl dcs ndlc ss tr = (Ok (Some [h]), tr')
    /\ ~ In (blank self) h.
Proof.
  intros Hc Hf.
  pose proof (mask_sum_nonneg
                (snd (encoder self speech sl (Some (-1)%Z) (Some (-1)%Z))))
    as HL. fold (frames self speech sl) in HL.
  destruct (greedy_loop_runs self
              (fst (encoder self speech sl (Some (-1)%Z) (Some (-1)%Z)))
              (frames self speech sl) HL)
    as (n & evs & st' & Hr & Hn & Hno).
  exists (hyps st'), (tr ++ EvEncoder :: evs). split; [|exact Hno].
  apply greedy_search_run with (n := n); auto.
  unfold per_frame_max_noblk in Hn. lia.
Qed.

Lemma greedy_search_never_emits_blank_witness :
  exists h tr',
    greedy_search 505 Toy.model Toy.speech5 [5%Z] (-1) (-1) false []
    = (Ok (Some [h]), tr')
    /\ ~ In (blank Toy.model) h.
Proof.
  apply (greedy_search_never_emits_blank Toy.model Toy.speech5 [5%Z] (-1) (-1)
           false 505 []).
  - reflexivity.
  - vm_compute. apply le_n.
Defined.

(** C9.  Two calls of [greedy_search] that differ only in a nonzero
    [decoding_chunk_size], in [num_decoding_left_chunks] and in
    [simulate_streaming] do the same calls and return the same result. *)
Theorem greedy_search_ignores_chunk_arguments {B : Backend}
    (self : Transducer B) (speech : list (Feat B)) (sl : Lens) (fuel : nat)
    (dcs1 dcs2 ndlc1 ndlc2 : Z) (ss1 ss2 : bool) (tr : list event) :
  dcs1 <> 0%Z -> dcs2 <> 0%Z ->
  greedy_search fuel self speech sl dcs1 ndlc1 ss1 tr
  = greedy_search fuel self speech sl dcs2 ndlc2 ss2 tr.
Proof.
  intros H1 H2. unfold greedy_search.
  apply Z.eqb_neq in H1, H2. rewrite H1, H2. reflexivity.
Qed.

Lemma greedy_search_ignores_chunk_arguments_witness :
  greedy_search 505 Toy.model Toy.speech5 [5%Z] (-1) (-1) false []
  = greedy_search 505 Toy.model Toy.speech5 [5%Z] 16 4 true [].
Proof.
  apply (greedy_search_ignores_chunk_arguments Toy.model Toy.speech5 [5%Z] 505
           (-1) 16 (-1) 4 false true []).
  - intros H. discriminate H.
  - intros H. discriminate H.
Defined.

(** C10.  From its initial locals the decoding loop leaves after [n] passes
    with [n <= L * 101], where [L] is the number of valid frames; with fuel
    for [n] passes [greedy_search] returns; and every pass either advances
    [t] or keeps [t] and increments the per-frame counter, which stays
    below the cap. *)
Theorem greedy_search_terminates {B : Backend} (self : Transducer B)
    (speech : list (Feat B)) (sl : Lens) :
  exists n evs st',
    loop_runs self (fst (encoder self speech sl (Some (-1)%Z) (Some (-1)%Z)))
      (frames self speech sl) n (greedy_init self) evs st'
    /\ (Z.of_nat n <= frames self speech sl * 101)%Z
    /\ (forall fuel dcs ndlc ss tr,
          (n <= fuel)%nat ->
          greedy_checks speech sl dcs = true ->
          greedy_search fuel self speech sl dcs ndlc ss tr
          = (Ok (Some [hyps st']), tr ++ EvEncoder :: evs))
    /\ (forall fuel dcs ndlc ss tr,
          (fuel < n)%nat ->
          greedy_checks speech sl dcs = true ->
          fst (greedy_search fuel self speech sl dcs ndlc ss tr) = Ok None)
    /\ (forall enc st evs1 st1,
          greedy_body self enc st = Ok (evs1, st1) ->
          t st1 = (t st + 1)%Z
          \/ (t st1 = t st
              /\ per_frame_noblk st1 = (per_frame_noblk st + 1)%Z
              /\ (per_frame_noblk st1 < per_frame_max_noblk)%Z)).
Proof.
  pose proof (mask_sum_nonneg
                (snd (encoder self speech sl (Some (-1)%Z) (Some (-1)%Z))))
    as HL. fold (frames self speech sl) in HL.
  destruct (greedy_loop_runs self
              (fst (encoder self speech sl (Some (-1)%Z) (Some (-1)%Z)))
              (frames self speech sl) HL)
    as (n & evs & st' & Hr & Hn & _).
  exists n, evs, st'. split; [exact Hr|]. split.
  { unfold per_frame_max_noblk in Hn. lia. }
  split; [|split].
  - intros fuel dcs ndlc ss tr Hf Hc.
    apply greedy_search_run with (n := n); auto.
  - intros fuel dcs ndlc ss tr Hf Hc.
    apply greedy_search_out_of_fuel with (n := n) (evs := evs) (st' := st');
      auto.
  - intros enc st evs1 st1. apply greedy_body_progress.
Qed.

(** ** Statements about [forward] *)

Lemma ctc_enabled_false {B : Backend} (self : Transducer B) :
  ctc_weight self == 0 \/ ctc self = None -> ctc_enabled self = false.
Proof.
  unfold ctc_enabled, Qneb. intros [H | H].
  - destruct (ctc self); [|reflexivity].
    apply Qeq_bool_iff in H. now rewrite H.
  - now rewrite H.
Qed.

Lemma att_enabled_false {B : Backend} (self : Transducer B) :
  attention_decoder_weight self == 0 \/ attention_decoder self = None ->
  att_enabled self = false.
Proof.
  unfold att_enabled, Qneb. intros [H | H].
  - destruct (attention_decoder self); [|reflexivity].
    apply Qeq_bool_iff in H. now rewrite H.
  - now rewrite H.
Qed.

(** The total loss when both optional heads ran: the transducer loss enters
    with weight one. *)
Lemma forward_total_loss {B : Backend} (self : Transducer B)
    (speech : list (Feat B)) (sl : Lens) (text : Labels) (tl : Lens)
    (tr : list event) (b : LossBundle) (tr' : list event) (c a : Q) :
  forward self speech sl text tl tr = (Ok b, tr') ->
  loss_ctc b = Some c ->
  loss_att b = Some a ->
  loss b
  = loss_rnnt b + ctc_weight self * tensor_sum c
    + attention_decoder_weight self * tensor_sum a.
Proof.
  intros H Hc Ha.
  destruct (forward_inv _ _ _ _ _ _ _ _ H) as [(_ & Hr & _) | (_ & Hok)];
    [discriminate|].
  destruct Hok as (ev_att & ev_ctc & _ & _ & _ & _ & Hb).
  destruct (Hb b eq_refl) as (_ & _ & _ & ->).
  rewrite Hc, Ha. reflexivity.
Qed.

(** C1.  A model built with [ctc_weight = 0.25], [transducer_weight = 0.5]
    and [attention_weight = 0.25], on which each of the three heads reports
    the loss 4: [forward] returns the total 6, while the weighted
    combination of the three returned head losses is 4. *)
Theorem forward_leaves_transducer_loss_unweighted :
  exists b tr c a,
    run (forward Toy.model Toy.speech2 [2%Z] [[1; 1]%Z] [2%Z]) = (Ok b, tr)
    /\ loss_ctc b = Some c
    /\ loss_att b = Some a
    /\ loss b == 6
    /\ ctc_weight Toy.model * tensor_sum c
       + attention_decoder_weight Toy.model * tensor_sum a
       + transducer_weight Toy.model * loss_rnnt b == 4.
Proof.
  eexists. eexists. exists 4, 4.
  split; [vm_compute; reflexivity|].
  split; [vm_compute; reflexivity|].
  split; [vm_compute; reflexivity|].
  split; vm_compute; reflexivity.
Qed.

(** C5.  In a run of [forward] from an empty log: if the CTC weight is zero
    or there is no CTC head, the CTC head is never called, the bundle's
    [loss_ctc] is [None] and the total is the transducer loss plus, when it
    was computed, the attention term only; likewise, if the attention weight
    is zero or there is no attention decoder, neither the decoder nor its
    criterion is called, [loss_att] is [None] and the total is the transducer
    loss plus, when it was computed, the CTC term only. *)
Theorem forward_skips_disabled_heads {B : Backend} (self : Transducer B)
    (speech : list (Feat B)) (sl : Lens) (text : Labels) (tl : Lens)
    (res : result LossBundle) (tr' : list event) :
  run (forward self speech sl text tl) = (res, tr') ->
  (ctc_weight self == 0 \/ ctc self = None ->
   ~ In EvCtc tr'
   /\ forall b, res = Ok b ->
        loss_ctc b = None
        /\ loss b
           = add_term (loss_rnnt b) (attention_decoder_weight self)
               (loss_att b))
  /\
  (attention_decoder_weight self == 0 \/ attention_decoder self = None ->
   ~ In EvAttentionDecoder tr' /\ ~ In EvCriterionAtt tr'
   /\ forall b, res = Ok b ->
        loss_att b = None
        /\ loss b = add_term (loss_rnnt b) (ctc_weight self) (loss_ctc b)).
Proof.
  unfold run. intros H.
  destruct (forward_inv _ _ _ _ _ _ _ _ H) as [(_ & -> & ->) | (_ & Hok)].
  { split; intros _; repeat split; try (intros []); discriminate. }
  destruct Hok as (ev_att & ev_ctc & -> & Hatt & Hen & Hctc & Hb).
  split.
  - intros Hoff. apply ctc_enabled_false in Hoff.
    destruct Hctc as [-> | [_ Hc]]; [|congruence].
    split.
    + cbn. rewrite app_nil_r.
      intros [Hi | [Hi | [Hi | [Hi | Hi]]]]; try discriminate.
      rewrite Forall_forall in Hatt. destruct (Hatt _ Hi); discriminate.
    + intros b Hres. destruct (Hb b Hres) as (_ & _ & Hc & ->).
      apply Hc in Hoff. rewrite Hoff. split; reflexivity.
  - intros Hoff. apply att_enabled_false in Hoff. rewrite Hoff in Hen.
    subst ev_att.
    assert (Hno : forall e, In e ([EvEncoder; EvPredictor; EvJoint;
                     EvRnntLoss (rnnt_remap (ignore_id self) text)]
                    ++ [] ++ ev_ctc) -> e <> EvAttentionDecoder
                                        /\ e <> EvCriterionAtt).
    { cbn. intros e [<- | [<- | [<- | [<- | Hi]]]];
        try (split; discriminate).
      destruct Hctc as [-> | [-> _]]; [destruct Hi|].
      destruct Hi as [<- | []]. split; discriminate. }
    split; [intros Hi; apply Hno in Hi; tauto|].
    split; [intros Hi; apply Hno in Hi; tauto|].
    intros b Hres. destruct (Hb b Hres) as (_ & Ha & _ & ->).
    apply Ha in Hoff. rewrite Hoff. split; reflexivity.
Qed.

Lemma forward_skips_disabled_heads_witness :
  ~ In EvCtc
      (snd (run (forward Toy.model_bare Toy.speech2 [2%Z] [[1; 1]%Z] [2%Z])))
  /\ forall b,
       fst (run (forward Toy.model_bare Toy.speech2 [2%Z] [[1; 1]%Z] [2%Z]))
       = Ok b ->
       loss_ctc b = None
       /\ loss b
          = add_term (loss_rnnt b) (attention_decoder_weight Toy.model_bare)
              (loss_att b).
Proof.
  destruct (forward_skips_disabled_heads Toy.model_bare Toy.speech2 [2%Z]
              [[1; 1]%Z] [2%Z]
              (fst (run (forward Toy.model_bare Toy.speech2 [2%Z] [[1; 1]%Z]
                           [2%Z])))
              (snd (run (forward Toy.model_bare Toy.speech2 [2%Z] [[1; 1]%Z]
                           [2%Z]))))
    as [Hctc _].
  - vm_compute. reflexivity.
  - apply Hctc. right. reflexivity.
Defined.

Example toy_forward_bare :
  run (forward Toy.model_bare Toy.speech2 [2%Z] [[1; 1]%Z] [2%Z])
  = (Ok {| loss := 4; loss_att := None; loss_ctc := None; loss_rnnt := 4 |},
     [EvEncoder; EvPredictor; EvJoint; EvRnntLoss [[1; 1]%Z]]).
Proof. vm_compute. reflexivity. Qed.

(** ** The labels handed to the loss kernel *)

Lemma rnnt_remap_remapped_from (ignore : Z) (text : Labels) :
  labels_in_int32 text ->
  remapped_from ignore text (rnnt_remap ignore text).
Proof.
  intros Hr i j. destruct (lookup2 text i j) as [v|] eqn:Ev.
  - exists (if (v =? ignore)%Z then 0%Z else v).
    split; [now apply rnnt_remap_lookup|].
    destruct (v =? ignore)%Z eqn:E.
    + apply Z.eqb_eq in E. repeat split; auto; congruence.
    + apply Z.eqb_neq in E. repeat split; auto; congruence.
  - now apply rnnt_remap_shape.
Qed.

Lemma rescoring_trace {B : Backend} (self : Transducer B)
    (speech : list (Feat B)) (sl : Lens) (beam_size dcs ndlc : Z) (ss : bool)
    (rw cw aw tw scw stw : Q) (tr : list event) :
  snd (transducer_attention_rescoring self speech sl beam_size dcs ndlc ss rw
         cw aw tw scw stw tr)
  = snd (rescoring_prepare self speech sl beam_size dcs ndlc ss rw scw stw tr).
Proof.
  unfold transducer_attention_rescoring. rewrite bind_unfold.
  destruct (rescoring_prepare self speech sl beam_size dcs ndlc ss rw scw stw
              tr) as [[inp|e] tr']; reflexivity.
Qed.

(** C8, as the code has it.  Every label tensor that [forward] hands to
    the RNN-T loss kernel is, provided the text's entries fit in 32 bits, the
    text with each ignore-id turned into 0 and every other label kept: a
    valid position keeps its label, which is not the ignore-id, and 0 stands
    only where the text held the ignore-id or the label 0 itself.  The same
    is true in [transducer_attention_rescoring] of the padded hypotheses. *)
Theorem rnnt_kernel_labels_are_remapped {B : Backend} (self : Transducer B)
    (speech : list (Feat B)) (sl : Lens) (text : Labels) (tl_ : Lens)
    (beam_size dcs ndlc : Z) (ss : bool) (rw cw aw tw scw stw : Q) :
  (forall labels,
      In (EvRnntLoss labels) (snd (run (forward self speech sl text tl_))) ->
      labels_in_int32 text ->
      remapped_from (ignore_id self) text labels)
  /\
  (forall labels,
      In (EvRnntLoss labels)
        (snd (run (transducer_attention_rescoring self speech sl beam_size dcs
                     ndlc ss rw cw aw tw scw stw))) ->
      exists hyps_pad,
        pad_sequence
          (map (fun s => tl (hyp s))
             (fst (bs self speech sl dcs beam_size ndlc None scw stw)))
          (ignore_id self)
        = Ok hyps_pad
        /\ (labels_in_int32 hyps_pad ->
            remapped_from (ignore_id self) hyps_pad labels)).
Proof.
  split.
  - intros labels Hin Hr. unfold run in Hin.
    destruct (forward self speech sl text tl_ []) as [res tr'] eqn:H.
    cbn [snd] in Hin.
    destruct (forward_inv _ _ _ _ _ _ _ _ H) as [(_ & _ & ->) | (_ & Hok)];
      [destruct Hin|].
    destruct Hok as (ev_att & ev_ctc & -> & Hatt & _ & Hctc & _).
    cbn in Hin.
    destruct Hin as [Hi | [Hi | [Hi | [Hi | Hi]]]]; try discriminate.
    + injection Hi as <-. now apply rnnt_remap_remapped_from.
    + exfalso. apply in_app_iff in Hi. destruct Hi as [Hi | Hi].
      * rewrite Forall_forall in Hatt. destruct (Hatt _ Hi); discriminate.
      * destruct Hctc as [-> | [-> _]]; [destruct Hi|].
        destruct Hi as [Hi | []]. discriminate.
  - intros labels Hin. unfold run in Hin. rewrite rescoring_trace in Hin.
    destruct (rescoring_prepare self speech sl beam_size dcs ndlc ss rw scw stw
                []) as [res tr'] eqn:H.
    cbn [snd] in Hin.
    destruct (rescoring_prepare_inv _ _ _ _ _ _ _ _ _ _ _ _ _ H)
      as (Hl & _ & _).
    destruct (Hl labels Hin) as [[] | (hyps_pad & Hp & ->)].
    exists hyps_pad. split; [exact Hp|].
    intros Hr. now apply rnnt_remap_remapped_from.
Qed.

Lemma rnnt_kernel_labels_are_remapped_witness :
  remapped_from (-1) [[1; 1; -1]%Z] [[1; 1; 0]%Z].
Proof.
  destruct (rnnt_kernel_labels_are_remapped Toy.model Toy.speech2 [2%Z]
              [[1; 1; -1]%Z] [2%Z] 2 (-1) (-1) false 0 0 1 0 1 0)
    as [Hf _].
  apply (Hf [[1; 1; 0]%Z]).
  - vm_compute. auto.
  - intros row v [<- | []] Hv. unfold in_int32.
    destruct Hv as [<- | [<- | [<- | []]]]; vm_compute; split; congruence.
Defined.

(** C8, as stated, fails.  In a model of four tokens whose blank is 1 the
    text [[0, 2, -1]] reaches the kernel as [[0, 2, 0]], which holds 0 at
    (0, 0) although the text holds no ignore-id there.  And a label that
    does not fit in 32 bits can turn into the ignore-id at a valid position:
    [[4294967295, -1]] reaches the kernel as [[-1, 0]]. *)
Lemma rnnt_labels_zero_only_at_padding_counterexample :
  (In (EvRnntLoss [[0; 2; 0]%Z])
     (snd (run (forward Toy.model_blank1 Toy.speech2 [2%Z] [[0; 2; -1]%Z]
                  [2%Z])))
   /\ lookup2 [[0; 2; 0]%Z] 0 0 = Some 0%Z
   /\ lookup2 [[0; 2; -1]%Z] 0 0 <> Some (ignore_id Toy.model_blank1))
  /\
  (In (EvRnntLoss [[-1; 0]%Z])
     (snd (run (forward Toy.model_blank1 Toy.speech2 [2%Z]
                  [[4294967295; -1]%Z] [1%Z])))
   /\ lookup2 [[-1; 0]%Z] 0 0 = Some (ignore_id Toy.model_blank1)
   /\ lookup2 [[4294967295; -1]%Z] 0 0
      <> Some (ignore_id Toy.model_blank1)).
Proof.
  split.
  - split; [vm_compute; auto|]. split; [reflexivity|]. discriminate.
  - split; [vm_compute; auto|]. split; [reflexivity|]. discriminate.
Qed.

(** * Further properties *)

(** ** More on the greedy decoding loop *)

Section MoreGreedyFacts.

Context {B : Backend}.
Implicit Types (self : Transducer B) (st : gstate B) (evs : list event).

Ltac pass_cases st H :=
  unfold greedy_body in H;
  destruct (prev_out_nblk st) eqn:?;
  [ destruct (forward_step _ _ _ _ _) as [[? ?] ?]
  | destruct (pred_out_step st) eqn:?; cbn in H; [|discriminate H] ];
  cbn in H;
  match type of H with
  | context [(?y =? blank ?s)%Z] => destruct (y =? blank s)%Z eqn:?
  end;
  cbn in H;
  try (destruct (state_out st) as [[? ?]|] eqn:?; cbn in H;
       [|discriminate H]);
  match type of H with
  | context [(per_frame_max_noblk <=? ?c)%Z] =>
      destruct (per_frame_max_noblk <=? c)%Z eqn:?
  | _ => idtac
  end;
  cbn in H; injection H as <- <-; cbn.

(** X3.  A pass that emits nothing (its decision was blank) advances [t] by
    one, resets the counter, and leaves the predictor input and both
    predictor state tensors untouched. *)
Theorem greedy_blank_pass_keeps_predictor_state self (enc : EncOut B) st evs
    st' :
  greedy_body self enc st = Ok (evs, st') ->
  hyps st' = hyps st ->
  pred_input_step st' = pred_input_step st
  /\ state_m st' = state_m st
  /\ state_c st' = state_c st
  /\ t st' = (t st + 1)%Z
  /\ per_frame_noblk st' = 0%Z.
Proof.
  intros H. pass_cases st H; intros Hh; auto;
    exfalso; apply (f_equal (@length Z)) in Hh;
    rewrite length_app in Hh; cbn in Hh; lia.
Qed.

Lemma reach_inv_init self : reach_inv self (greedy_init self).
Proof.
  unfold reach_inv, ginv, greedy_init, per_frame_max_noblk.
  destruct (init_state _ _ _) as [m c]. cbn.
  repeat split; auto; try lia; try discriminate.
Qed.

Lemma reach_inv_pass self enc st evs st' :
  reach_inv self st ->
  greedy_body self enc st = Ok (evs, st') ->
  reach_inv self st'
  /\ (t st <= t st' <= t st + 1)%Z.
Proof.
  intros (Hg & Ht & Hc & Hcl & Hl & Hf & Hb) H.
  pose proof (greedy_body_ginv _ _ _ _ _ Hg H) as Hg'.
  pose proof (greedy_body_hyps _ _ _ _ _ H Hb) as Hb'.
  destruct (greedy_body_spec _ _ _ _ _ H) as (y & _ & Hy).
  unfold reach_inv. unfold per_frame_max_noblk in *.
  destruct Hy as [(_ & Hh & Ht' & Hc' & _ & Hp') | (_ & Hh & _ & Hcase)].
  - rewrite Hh, Ht', Hc'. split; [|lia].
    split; [right; exact Hg'|]. split; [lia|]. split; [lia|].
    split; [lia|]. split; [lia|]. split; [|rewrite <- Hh; exact Hb'].
    intros Hfalse. split; [reflexivity|].
    rewrite Hfalse in Hp'.
    destruct (100 <=? per_frame_noblk st)%Z eqn:E.
    + apply Z.leb_le in E. lia.
    + symmetry in Hp'. apply Hf in Hp'. lia.
  - assert (Hlen : Z.of_nat (length (hyps st'))
                   = (Z.of_nat (length (hyps st)) + 1)%Z).
    { rewrite Hh, length_app. cbn. lia. }
    destruct (100 <=? per_frame_noblk st + 1)%Z eqn:E.
    + apply Z.leb_le in E. destruct Hcase as (Ht' & Hc' & Hp').
      rewrite Ht', Hc'. split; [|lia].
      split; [right; exact Hg'|]. split; [lia|]. split; [lia|].
      split; [lia|]. split; [lia|]. split; [|exact Hb'].
      intros _. split; [reflexivity | lia].
    + apply Z.leb_gt in E. destruct Hcase as (Ht' & Hc' & Hp').
      rewrite Ht', Hc'. split; [|lia].
      split; [right; exact Hg'|]. split; [lia|]. split; [lia|].
      split; [lia|]. split; [lia|]. split; [|exact Hb'].
      intros Hfalse. congruence.
Qed.

Lemma passes_reach self enc (n : nat) :
  forall st,
    reach_inv self st ->
    exists st',
      passes n self enc st = Ok st'
      /\ reach_inv self st'
      /\ (t st <= t st' <= t st + Z.of_nat n)%Z.
Proof.
  induction n as [|n IH]; intros st Hi.
  - exists st. split; [reflexivity|]. split; [exact Hi | lia].
  - destruct Hi as (Hg & Hrest).
    destruct (greedy_body_total self enc st Hg) as (evs & st1 & Hb).
    destruct (reach_inv_pass self enc st evs st1 (conj Hg Hrest) Hb)
      as (Hi1 & Ht1).
    destruct (IH st1 Hi1) as (st' & Hp & Hi' & Ht').
    exists st'. split; [|split; [exact Hi' | lia]].
    cbn. rewrite Hb. cbn. exact Hp.
Qed.

Lemma loop_runs_reach self enc L n st evs st' :
  loop_runs self enc L n st evs st' ->
  reach_inv self st ->
  (t st <= L)%Z ->
  (t st = L -> per_frame_noblk st = 0%Z) ->
  reach_inv self st'
  /\ t st' = L
  /\ per_frame_noblk st' = 0%Z
  /\ (L - t st <= Z.of_nat n)%Z.
Proof.
  induction 1 as [st Hc | n st evs sta evs' stb Hc Hb Hr IH];
    intros Hi Ht H0.
  - apply Z.ltb_ge in Hc. split; [exact Hi|].
    assert (t st = L) by lia. auto with zarith.
  - apply Z.ltb_lt in Hc.
    destruct (reach_inv_pass _ _ _ _ _ Hi Hb) as (Hi1 & Ht1).
    destruct (IH Hi1) as (Hi' & Ht' & Hc' & Hn); [lia| |].
    + intros HtL.
      destruct (greedy_body_spec _ _ _ _ _ Hb) as (y & _ & Hy).
      destruct Hy as [(_ & _ & _ & Hc1 & _) | (_ & _ & _ & Hcase)];
        [exact Hc1|].
      destruct (per_frame_max_noblk <=? per_frame_noblk st + 1)%Z;
        [tauto | lia].
    + split; [exact Hi'|]. split; [exact Ht'|]. split; [exact Hc' | lia].
Qed.

(** With a joint network that always decides blank the loop makes one pass
    per frame and emits nothing. *)
Lemma loop_runs_silent self enc L :
  (forall e p, argmax_squeeze B (joint_log_softmax B (joint self e p))
               = blank self) ->
  forall (k : nat) st,
    ginv st ->
    (0 <= per_frame_noblk st < per_frame_max_noblk)%Z ->
    (L - t st = Z.of_nat k)%Z ->
    exists evs st',
      loop_runs self enc L k st evs st' /\ hyps st' = hyps st.
Proof.
  intros Hsil. unfold per_frame_max_noblk.
  induction k as [|k IH]; intros st Hg Hc Hk.
  - exists [], st. split; [|reflexivity]. constructor. apply Z.ltb_ge. lia.
  - destruct (greedy_body_total self enc st Hg) as (evs & st1 & Hb).
    pose proof (greedy_body_ginv _ _ _ _ _ Hg Hb) as Hg1.
    assert (Hst1 : hyps st1 = hyps st /\ t st1 = (t st + 1)%Z
                   /\ per_frame_noblk st1 = 0%Z).
    { clear IH Hg1. pass_cases st Hb; auto;
        match goal with
        | E : (_ =? blank self)%Z = false |- _ =>
            rewrite Hsil, Z.eqb_refl in E; discriminate E
        end. }
    destruct Hst1 as (Hh1 & Ht1 & Hc1).
    destruct (IH st1) as (evs' & st' & Hr & Hh');
      [right; exact Hg1 | lia | lia |].
    exists (evs ++ evs'), st'. split; [|congruence].
    econstructor; eauto. apply Z.ltb_lt. lia.
Qed.

End MoreGreedyFacts.

(** X1.  However many passes the loop body makes from the initial locals,
    it raises nothing, the per-frame counter stays in [0, 100), and the
    number of tokens emitted is at most 100 per frame left behind plus the
    counter. *)
Theorem greedy_passes_stay_in_bounds {B : Backend} (self : Transducer B)
    (enc : EncOut B) (n : nat) :
  exists st,
    passes n self enc (greedy_init self) = Ok st
    /\ (0 <= per_frame_noblk st < 100)%Z
    /\ (0 <= t st <= Z.of_nat n)%Z
    /\ (Z.of_nat (length (hyps st)) <= 100 * t st + per_frame_noblk st)%Z.
Proof.
  destruct (passes_reach self enc n (greedy_init self) (reach_inv_init self))
    as (st & Hp & (_ & Ht & Hc & _ & Hl & _) & Htn).
  destruct (greedy_init_fields self) as (Ht0 & _).
  exists st. unfold per_frame_max_noblk in *. rewrite Ht0 in Htn.
  split; [exact Hp|]. split; [lia|]. split; [lia | lia].
Qed.

(** X2.  The predictor step is skipped only after a frame has hit the cap:
    in every state the loop body reaches from the initial locals, a cleared
    [prev_out_nblk] comes with at least 100 emitted tokens and the counter
    at 0.  So while fewer than 100 tokens are out, every pass, also one that
    follows a blank, runs [predictor.forward_step]. *)
Theorem greedy_predictor_skipped_only_after_cap {B : Backend}
    (self : Transducer B) (enc : EncOut B) (n : nat) :
  exists st,
    passes n self enc (greedy_init self) = Ok st
    /\ (prev_out_nblk st = false ->
        per_frame_noblk st = 0%Z
        /\ (100 <= Z.of_nat (length (hyps st)))%Z)
    /\ ((Z.of_nat (length (hyps st)) < 100)%Z ->
        forall evs st',
          greedy_body self enc st = Ok (evs, st') ->
          evs = [EvPredictorStep (pred_input_step st); EvJoint]).
Proof.
  destruct (passes_reach self enc n (greedy_init self) (reach_inv_init self))
    as (st & Hp & (_ & _ & _ & _ & _ & Hf & _) & _).
  exists st. unfold per_frame_max_noblk in Hf.
  split; [exact Hp|]. split; [exact Hf|].
  intros Hlt evs st' Hb.
  destruct (greedy_body_spec _ _ _ _ _ Hb) as (y & Hev & _).
  destruct (prev_out_nblk st) eqn:E; [exact Hev|].
  destruct (Hf eq_refl) as [_ Hge]. lia.
Qed.

Lemma greedy_blank_pass_keeps_predictor_state_witness :
  pred_input_step ToyMore.silent_1
  = pred_input_step (greedy_init ToyMore.model_silent)
  /\ state_m ToyMore.silent_1 = state_m (greedy_init ToyMore.model_silent)
  /\ state_c ToyMore.silent_1 = state_c (greedy_init ToyMore.model_silent)
  /\ t ToyMore.silent_1 = (t (greedy_init ToyMore.model_silent) + 1)%Z
  /\ per_frame_noblk ToyMore.silent_1 = 0%Z.
Proof.
  apply (greedy_blank_pass_keeps_predictor_state ToyMore.model_silent
           Toy.speech2 (greedy_init ToyMore.model_silent)
           [EvPredictorStep 0; EvJoint] ToyMore.silent_1).
  - reflexivity.
  - reflexivity.
Defined.

(** X4.  The decoding loop leaves with [t] equal to the number [L] of valid
    frames, after at least [L] and at most [100 * L] passes, and the
    hypothesis it has built holds at most [100 * L] tokens. *)
Theorem greedy_loop_exits_at_last_frame {B : Backend} (self : Transducer B)
    (speech : list (Feat B)) (sl : Lens) :
  exists n evs st',
    loop_runs self (fst (encoder self speech sl (Some (-1)%Z) (Some (-1)%Z)))
      (frames self speech sl) n (greedy_init self) evs st'
    /\ t st' = frames self speech sl
    /\ (frames self speech sl <= Z.of_nat n <= 100 * frames self speech sl)%Z
    /\ (Z.of_nat (length (hyps st')) <= 100 * frames self speech sl)%Z.
Proof.
  pose proof (mask_sum_nonneg
                (snd (encoder self speech sl (Some (-1)%Z) (Some (-1)%Z))))
    as HL. fold (frames self speech sl) in HL.
  destruct (greedy_loop_runs self
              (fst (encoder self speech sl (Some (-1)%Z) (Some (-1)%Z)))
              (frames self speech sl) HL)
    as (n & evs & st' & Hr & Hn & _).
  destruct (greedy_init_fields self) as (Ht0 & _).
  destruct (greedy_init_fields self) as (_ & _ & _ & Hc00).
  destruct (loop_runs_reach _ _ _ _ _ _ _ Hr (reach_inv_init self))
    as ((_ & _ & _ & _ & Hl & _) & Ht & Hc0 & Hge); [lia | auto |].
  exists n, evs, st'. unfold per_frame_max_noblk in *. rewrite Ht0 in Hge.
  split; [exact Hr|]. split; [exact Ht|]. split; lia.
Qed.


Lemma greedy_search_returns {B : Backend} (self : Transducer B)
    (speech : list (Feat B)) (sl : Lens) (dcs ndlc : Z) (ss : bool)
    (fuel : nat) (tr : list event) :
  greedy_checks speech sl dcs = true ->
  (Z.to_nat (100 * frames self speech sl) <= fuel)%nat ->
  exists hs tr',
    greedy_search fuel self speech sl dcs ndlc ss tr = (Ok (Some hs), tr').
Proof.
  intros Hc Hf.
  pose proof (mask_sum_nonneg
                (snd (encoder self speech sl (Some (-1)%Z) (Some (-1)%Z))))
    as HL. fold (frames self speech sl) in HL.
  destruct (greedy_loop_runs self
              (fst (encoder self speech sl (Some (-1)%Z) (Some (-1)%Z)))
              (frames self speech sl) HL)
    as (n & evs & st' & Hr & Hn & _).
  exists [hyps st'], (tr ++ EvEncoder :: evs).
  apply greedy_search_run with (n := n); auto.
  unfold per_frame_max_noblk in Hn. lia.
Qed.

(** X5.  With its entry checks passed and fuel for 100 passes per frame,
    [greedy_search] returns one hypothesis of at most [100 * L] tokens, [L]
    being the number of valid frames. *)
Theorem greedy_search_output_length_bound {B : Backend} (self : Transducer B)
    (speech : list (Feat B)) (sl : Lens) (dcs ndlc : Z) (ss : bool)
    (fuel : nat) (tr : list event) :
  greedy_checks speech sl dcs = true ->
  (Z.to_nat (100 * frames self speech sl) <= fuel)%nat ->
  exists h tr',
    greedy_search fuel self speech sl dcs ndlc ss tr = (Ok (Some [h]), tr')
    /\ (Z.of_nat (length h) <= 100 * frames self speech sl)%Z.
Proof.
  intros Hc Hf.
  pose proof (mask_sum_nonneg
                (snd (encoder self speech sl (Some (-1)%Z) (Some (-1)%Z))))
    as HL. fold (frames self speech sl) in HL.
  destruct (greedy_loop_runs self
              (fst (encoder self speech sl (Some (-1)%Z) (Some (-1)%Z)))
              (frames self speech sl) HL)
    as (n & evs & st' & Hr & Hn & _).
  destruct (greedy_init_fields self) as (Ht0 & _ & _ & Hc00).
  destruct (loop_runs_reach _ _ _ _ _ _ _ Hr (reach_inv_init self))
    as ((_ & _ & _ & _ & Hl & _) & Ht & Hc0 & _); [lia | auto |].
  exists (hyps st'), (tr ++ EvEncoder :: evs).
  unfold per_frame_max_noblk in *. split; [|lia].
  apply greedy_search_run with (n := n); auto. lia.
Qed.

Lemma greedy_search_output_length_bound_witness :
  exists h tr',
    greedy_search 200 Toy.model_stuck Toy.speech2 [2%Z] (-1) (-1) false []
    = (Ok (Some [h]), tr')
    /\ (Z.of_nat (length h) <= 100 * frames Toy.model_stuck Toy.speech2 [2%Z])%Z.
Proof.
  apply (greedy_search_output_length_bound Toy.model_stuck Toy.speech2 [2%Z]
           (-1) (-1) false 200 []).
  - reflexivity.
  - vm_compute. apply le_n.
Defined.

(** X6.  On an utterance for which the encoder reports no valid frame the
    decoding loop makes no pass: after the encoder call [greedy_search]
    runs no predictor step and no joint network, and returns the empty
    hypothesis, with any fuel.  (It has still asked the predictor for its
    initial state, line 422, which leaves no log entry.) *)
Theorem greedy_search_no_frames {B : Backend} (self : Transducer B)
    (speech : list (Feat B)) (sl : Lens) (dcs ndlc : Z) (ss : bool)
    (fuel : nat) (tr : list event) :
  greedy_checks speech sl dcs = true ->
  frames self speech sl = 0%Z ->
  loop_runs self (fst (encoder self speech sl (Some (-1)%Z) (Some (-1)%Z)))
    (frames self speech sl) 0 (greedy_init self) [] (greedy_init self)
  /\ exists evs,
       greedy_search fuel self speech sl dcs ndlc ss tr
       = (Ok (Some [[]]), tr ++ EvEncoder :: evs)
       /\ ~ In EvJoint evs
       /\ (forall label, ~ In (EvPredictorStep label) evs).
Proof.
  intros Hc HL.
  destruct (greedy_init_fields self) as (Ht0 & Hh0 & _).
  assert (Hr : loop_runs self
                 (fst (encoder self speech sl (Some (-1)%Z) (Some (-1)%Z)))
                 (frames self speech sl) 0 (greedy_init self) []
                 (greedy_init self)).
  { constructor. rewrite Ht0, HL. reflexivity. }
  split; [exact Hr|]. exists []. split; [|split].
  - rewrite <- Hh0.
    apply greedy_search_run with (n := 0%nat); [exact Hc | exact Hr | lia].
  - intros [].
  - intros label [].
Qed.

Lemma greedy_search_no_frames_witness :
  exists evs,
    greedy_search 0 Toy.model ToyMore.speech0 [0%Z] (-1) (-1) false []
    = (Ok (Some [[]]), [] ++ EvEncoder :: evs)
    /\ ~ In EvJoint evs
    /\ (forall label, ~ In (EvPredictorStep label) evs).
Proof.
  apply (greedy_search_no_frames Toy.model ToyMore.speech0 [0%Z] (-1) (-1)
           false 0 []).
  - reflexivity.
  - reflexivity.
Defined.

(** X7.  If the joint network's arg-max is blank whatever it is given,
    [greedy_search] returns the empty hypothesis after exactly one pass per
    valid frame. *)
Theorem greedy_search_all_blank {B : Backend} (self : Transducer B)
    (speech : list (Feat B)) (sl : Lens) (dcs ndlc : Z) (ss : bool)
    (fuel : nat) (tr : list event) :
  (forall e p, argmax_squeeze B (joint_log_softmax B (joint self e p))
               = blank self) ->
  greedy_checks speech sl dcs = true ->
  (Z.to_nat (frames self speech sl) <= fuel)%nat ->
  exists evs st',
    loop_runs self (fst (encoder self speech sl (Some (-1)%Z) (Some (-1)%Z)))
      (frames self speech sl) (Z.to_nat (frames self speech sl))
      (greedy_init self) evs st'
    /\ greedy_search fuel self speech sl dcs ndlc ss tr
       = (Ok (Some [[]]), tr ++ EvEncoder :: evs).
Proof.
  intros Hsil Hc Hf.
  pose proof (mask_sum_nonneg
                (snd (encoder self speech sl (Some (-1)%Z) (Some (-1)%Z))))
    as HL. fold (frames self speech sl) in HL.
  destruct (greedy_init_fields self) as (Ht0 & Hh0 & Hp0 & Hc0).
  destruct (loop_runs_silent self
              (fst (encoder self speech sl (Some (-1)%Z) (Some (-1)%Z)))
              (frames self speech sl) Hsil
              (Z.to_nat (frames self speech sl)) (greedy_init self))
    as (evs & st' & Hr & Hh).
  - left. exact Hp0.
  - rewrite Hc0. unfold per_frame_max_noblk. lia.
  - rewrite Ht0. lia.
  - exists evs, st'. split; [exact Hr|].
    rewrite <- Hh0, <- Hh.
    apply greedy_search_run with (n := Z.to_nat (frames self speech sl));
      auto.
Qed.

Lemma greedy_search_all_blank_witness :
  exists evs st',
    loop_runs ToyMore.model_silent
      (fst (encoder ToyMore.model_silent Toy.speech5 [5%Z] (Some (-1)%Z)
              (Some (-1)%Z)))
      (frames ToyMore.model_silent Toy.speech5 [5%Z])
      (Z.to_nat (frames ToyMore.model_silent Toy.speech5 [5%Z]))
      (greedy_init ToyMore.model_silent) evs st'
    /\ greedy_search 5 ToyMore.model_silent Toy.speech5 [5%Z] (-1) (-1) false
         []
       = (Ok (Some [[]]), [] ++ EvEncoder :: evs).
Proof.
  apply (greedy_search_all_blank ToyMore.model_silent Toy.speech5 [5%Z] (-1)
           (-1) false 5 []).
  - intros e p. reflexivity.
  - reflexivity.
  - vm_compute. apply le_n.
Defined.

(** X8.  With fuel for 100 passes per frame, [greedy_search] raises exactly
    when one of its entry checks fails (batch size other than 1, a length
    tensor of another batch size, or [decoding_chunk_size = 0]); it then
    raises [AssertionError] without having called the encoder. *)
Theorem greedy_search_raises_iff_checks_fail {B : Backend}
    (self : Transducer B) (speech : list (Feat B)) (sl : Lens)
    (dcs ndlc : Z) (ss : bool) (fuel : nat) (tr : list event) :
  (Z.to_nat (100 * frames self speech sl) <= fuel)%nat ->
  ((exists e, fst (greedy_search fuel self speech sl dcs ndlc ss tr) = Raise e)
   <-> greedy_checks speech sl dcs = false)
  /\ (greedy_checks speech sl dcs = false ->
      greedy_search fuel self speech sl dcs ndlc ss tr
      = (Raise AssertionError, tr)).
Proof.
  intros Hf. split; [split|].
  - intros (e & He).
    destruct (greedy_checks speech sl dcs) eqn:Hc; [|reflexivity].
    destruct (greedy_search_returns self speech sl dcs ndlc ss
                fuel tr Hc Hf) as (hs & tr' & Hr).
    rewrite Hr in He. discriminate He.
  - intros Hc. exists AssertionError.
    now rewrite greedy_search_checks_fail.
  - apply greedy_search_checks_fail.
Qed.

Lemma greedy_search_raises_iff_checks_fail_witness :
  greedy_search 500 Toy.model Toy.speech5 [5%Z] 0 (-1) false []
  = (Raise AssertionError, []).
Proof.
  destruct (greedy_search_raises_iff_checks_fail Toy.model Toy.speech5 [5%Z]
              0 (-1) false 500 []) as [_ H].
  - vm_compute. apply le_n.
  - apply H. reflexivity.
Defined.

(** ** More on construction and on [forward] *)

Lemma Qgtb_zero_false (x : Q) : x == 0 -> Qgtb x 0 = false.
Proof.
  intros H. unfold Qgtb. apply negb_false_iff, Qle_bool_iff.
  rewrite H. apply Qle_refl.
Qed.

Lemma Qgtb_true_iff (x y : Q) : Qgtb x y = true <-> y < x.
Proof.
  unfold Qgtb. rewrite negb_true_iff. split; intros H.
  - apply Qnot_le_lt. intros Hle. apply Qle_bool_iff in Hle. congruence.
  - destruct (Qle_bool x y) eqn:E; [|reflexivity].
    apply Qle_bool_iff in E. exfalso. exact (Qlt_not_le _ _ H E).
Qed.

Section MoreForwardFacts.

Context {B : Backend}.
Implicit Types (self : Transducer B) (tr : list event).

Lemma calc_att_loss_ok self dec encoder_out encoder_mask ys_pad lens tr crit :
  criterion_att self = Some crit ->
  exists l acc tr',
    _calc_att_loss self dec encoder_out encoder_mask ys_pad lens tr
    = (Ok (l, acc), tr').
Proof.
  intros Hc. unfold _calc_att_loss.
  destruct (add_sos_eos B ys_pad _ _ _) as [ys_in ys_out].
  destruct (add_sos_eos B (reverse_pad_list B _ _ _) _ _ _) as [r_in r_out].
  cbn. destruct (decoder_forward _ _ _ _ _ _ _) as [d r].
  rewrite Hc. cbn.
  destruct (Qgtb (reverse_weight self) 0); cbn; eauto.
Qed.

(** [forward] fails only through its batch check or a missing criterion. *)
Lemma forward_ok self speech sl text tl tr :
  (attention_decoder self <> None -> criterion_att self <> None) ->
  batch_unified speech sl text tl = true ->
  exists b tr', forward self speech sl text tl tr = (Ok b, tr').
Proof.
  intros Hcrit Hb. unfold forward. rewrite Hb. cbn.
  destruct (encoder self speech sl None None) as [encoder_out encoder_mask].
  unfold forward_att.
  destruct (attention_decoder self) as [dec|] eqn:Ed.
  - destruct (criterion_att self) as [crit|] eqn:Ec;
      [|exfalso; apply Hcrit; congruence].
    destruct (Qneb (attention_decoder_weight self) 0).
    + rewrite bind_unfold.
      match goal with
      | |- context [_calc_att_loss ?s ?d ?e ?m ?y ?l ?t] =>
          destruct (calc_att_loss_ok s d e m y l t crit Ec)
            as (l0 & acc & tr1 & ->)
      end.
      cbn. unfold forward_ctc.
      destruct (ctc self); [destruct (Qneb (ctc_weight self) 0)|];
        cbn; eauto.
    + cbn. unfold forward_ctc.
      destruct (ctc self); [destruct (Qneb (ctc_weight self) 0)|];
        cbn; eauto.
  - cbn. unfold forward_ctc.
    destruct (ctc self); [destruct (Qneb (ctc_weight self) 0)|];
      cbn; eauto.
Qed.

End MoreForwardFacts.

(** X10.  Take a model whose attention criterion is bound whenever it has
    an attention decoder, which is how [__init__] leaves every model (lines
    56-62), and a one-dimensional [text_lengths], which is what [Lens]
    holds.  Then [forward] returns a loss bundle when the four batch sizes
    agree, and otherwise raises [AssertionError] before calling any
    module. *)
Theorem forward_on_built_model {B : Backend} (self : Transducer B)
    (speech : list (Feat B)) (sl : Lens) (text : Labels) (tl : Lens)
    (tr : list event) :
  (attention_decoder self <> None -> criterion_att self <> None) ->
  (batch_unified speech sl text tl = true ->
   exists b tr', forward self speech sl text tl tr = (Ok b, tr'))
  /\
  (batch_unified speech sl text tl = false ->
   forward self speech sl text tl tr = (Raise AssertionError, tr)).
Proof.
  intros Hcrit. split; intros Hb.
  - apply forward_ok; assumption.
  - unfold forward. rewrite Hb. reflexivity.
Qed.

Lemma forward_on_built_model_witness :
  (batch_unified (B := Toy.backend) Toy.speech2 [2%Z] [[1; 1]%Z] [2%Z]
   = true ->
   exists b tr',
     forward Toy.model Toy.speech2 [2%Z] [[1; 1]%Z] [2%Z] [] = (Ok b, tr'))
  /\
  (batch_unified (B := Toy.backend) Toy.speech2 [2%Z] [[1; 1]%Z] [2%Z]
   = false ->
   forward Toy.model Toy.speech2 [2%Z] [[1; 1]%Z] [2%Z] []
   = (Raise AssertionError, [])).
Proof.
  apply (forward_on_built_model Toy.model Toy.speech2 [2%Z] [[1; 1]%Z] [2%Z]
           []).
  intros _ H. discriminate H.
Defined.

(** X11.  A run of [forward] that passes the batch check calls the encoder,
    the predictor, the joint network and the RNN-T loss kernel, once each
    and in this order, whatever the three weights are; whatever it calls
    afterwards is the attention decoder, its criterion or the CTC head. *)
Theorem forward_always_computes_transducer_loss {B : Backend}
    (self : Transducer B) (speech : list (Feat B)) (sl : Lens)
    (text : Labels) (tl : Lens) (tr : list event)
    (res : result LossBundle) (tr' : list event) :
  forward self speech sl text tl tr = (res, tr') ->
  batch_unified speech sl text tl = true ->
  exists rest,
    tr' = tr ++ [EvEncoder; EvPredictor; EvJoint;
                 EvRnntLoss (rnnt_remap (ignore_id self) text)] ++ rest
    /\ Forall (fun e => e = EvAttentionDecoder \/ e = EvCriterionAtt
                        \/ e = EvCtc) rest.
Proof.
  intros H Hb.
  destruct (forward_inv _ _ _ _ _ _ _ _ H) as [(Hb' & _) | (_ & Hok)];
    [congruence|].
  destruct Hok as (ev_att & ev_ctc & -> & Hatt & _ & Hctc & _).
  exists (ev_att ++ ev_ctc). split; [reflexivity|].
  apply Forall_app. split.
  - eapply Forall_impl; [|exact Hatt]. intros e [He | He]; auto.
  - destruct Hctc as [-> | [-> _]];
      [constructor | constructor; [right; right; reflexivity | constructor]].
Qed.

Lemma forward_always_computes_transducer_loss_witness :
  exists rest,
    snd (run (forward Toy.model_bare Toy.speech2 [2%Z] [[1; 1]%Z] [2%Z]))
    = [] ++ [EvEncoder; EvPredictor; EvJoint;
             EvRnntLoss (rnnt_remap (ignore_id Toy.model_bare) [[1; 1]%Z])]
         ++ rest
    /\ Forall (fun e => e = EvAttentionDecoder \/ e = EvCriterionAtt
                        \/ e = EvCtc) rest.
Proof.
  apply (forward_always_computes_transducer_loss Toy.model_bare Toy.speech2
           [2%Z] [[1; 1]%Z] [2%Z] []
           (fst (run (forward Toy.model_bare Toy.speech2 [2%Z] [[1; 1]%Z]
                        [2%Z])))).
  - vm_compute. reflexivity.
  - reflexivity.
Defined.

(** X12.  The total loss [forward] returns is the transducer loss, taken
    with weight one, plus [ctc_weight] times the CTC loss and
    [attention_decoder_weight] times the attention loss, an absent head
    counting as zero. *)
Theorem forward_total_is_rnnt_plus_weighted_heads {B : Backend}
    (self : Transducer B) (speech : list (Feat B)) (sl : Lens)
    (text : Labels) (tl : Lens) (tr : list event) (b : LossBundle)
    (tr' : list event) :
  forward self speech sl text tl tr = (Ok b, tr') ->
  loss b
  == loss_rnnt b + ctc_weight self * or_zero (loss_ctc b)
     + attention_decoder_weight self * or_zero (loss_att b).
Proof.
  intros H.
  destruct (forward_inv _ _ _ _ _ _ _ _ H) as [(_ & Hr & _) | (_ & Hok)];
    [discriminate|].
  destruct Hok as (ev_att & ev_ctc & _ & _ & _ & _ & Hb).
  destruct (Hb b eq_refl) as (_ & _ & _ & ->).
  destruct (loss_ctc b), (loss_att b); unfold add_term, tensor_sum, or_zero;
    ring.
Qed.

Lemma forward_total_is_rnnt_plus_weighted_heads_witness :
  loss ToyMore.bundle
  == loss_rnnt ToyMore.bundle
     + ctc_weight Toy.model * or_zero (loss_ctc ToyMore.bundle)
     + attention_decoder_weight Toy.model * or_zero (loss_att ToyMore.bundle).
Proof.
  apply (forward_total_is_rnnt_plus_weighted_heads Toy.model Toy.speech2
           [2%Z] [[1; 1]%Z] [2%Z] [] ToyMore.bundle
           [EvEncoder; EvPredictor; EvJoint; EvRnntLoss [[1; 1]%Z];
            EvAttentionDecoder; EvCriterionAtt; EvCtc]).
  vm_compute. reflexivity.
Defined.

(** X13.  [_calc_att_loss] calls the attention decoder once.  With
    [reverse_weight] equal to 0 it evaluates the criterion once, on the
    left-to-right output, and returns that loss; with a positive
    [reverse_weight] it evaluates the criterion on both outputs and returns
    their blend, which at [reverse_weight] 1 is the right-to-left loss. *)
Theorem calc_att_loss_blends_directions {B : Backend} (self : Transducer B)
    (dec : AttentionDecoder B) (enc : EncOut B) (mask : Mask) (ys : Labels)
    (lens : Lens) (tr : list event) (crit : Logits3 -> Labels -> Q) :
  criterion_att self = Some crit ->
  let ys_io := add_sos_eos B ys (sos self) (eos self) (ignore_id self) in
  let r_io :=
    add_sos_eos B (reverse_pad_list B ys lens (ignore_id self)) (sos self)
      (eos self) (ignore_id self) in
  let d :=
    decoder_forward dec enc mask (fst ys_io)
      (map (fun l => (l + 1)%Z) lens) (fst r_io) (reverse_weight self) in
  let fwd := crit (fst d) (snd ys_io) in
  let rev := crit (snd d) (snd r_io) in
  exists l acc evs,
    _calc_att_loss self dec enc mask ys lens tr
    = (Ok (l, acc), tr ++ EvAttentionDecoder :: evs)
    /\ (reverse_weight self == 0 -> l == fwd /\ evs = [EvCriterionAtt])
    /\ (0 < reverse_weight self ->
        l == fwd * (1 - reverse_weight self) + rev * reverse_weight self
        /\ evs = [EvCriterionAtt; EvCriterionAtt])
    /\ (reverse_weight self == 1 -> l == rev).
Proof.
  intros Hc. cbv zeta. unfold _calc_att_loss.
  destruct (add_sos_eos B ys _ _ _) as [ys_in ys_out].
  destruct (add_sos_eos B (reverse_pad_list B _ _ _) _ _ _) as [r_in r_out].
  cbn. destruct (decoder_forward _ _ _ _ _ _ _) as [d r].
  rewrite Hc. cbn.
  destruct (Qgtb (reverse_weight self) 0) eqn:E; cbn.
  - apply Qgtb_true_iff in E.
    eexists _, _, [EvCriterionAtt; EvCriterionAtt].
    split; [rewrite <- !app_assoc; reflexivity|].
    split; [|split].
    + intros H0. rewrite H0 in E. exfalso. exact (Qlt_irrefl _ E).
    + intros _. split; reflexivity.
    + intros H1. rewrite H1. ring.
  - eexists _, _, [EvCriterionAtt].
    split; [rewrite <- !app_assoc; reflexivity|].
    split; [|split].
    + intros H0. split; [rewrite H0; ring | reflexivity].
    + intros Hpos. apply Qgtb_true_iff in Hpos. congruence.
    + intros H1. exfalso.
      assert (Hpos : 0 < reverse_weight self) by (rewrite H1; reflexivity).
      apply Qgtb_true_iff in Hpos. congruence.
Qed.

Lemma calc_att_loss_blends_directions_witness :
  exists l acc evs,
    _calc_att_loss Toy.model Toy.bi_decoder Toy.speech2 [[true; true]]
      [[1; 1]%Z] [2%Z] []
    = (Ok (l, acc), [] ++ EvAttentionDecoder :: evs)
    /\ (reverse_weight Toy.model == 0 -> l == 4 /\ evs = [EvCriterionAtt]).
Proof.
  destruct (calc_att_loss_blends_directions Toy.model Toy.bi_decoder
              Toy.speech2 [[true; true]] [[1; 1]%Z] [2%Z] []
              (LabelSmoothingLoss Toy.backend 3 (-1) 0 false))
    as (l & acc & evs & Hrun & H0 & _).
  - reflexivity.
  - exists l, acc, evs. split; [exact Hrun | exact H0].
Defined.

(** ** More on attention rescoring *)

Section MoreRescoringFacts.

Context {B : Backend}.
Implicit Types (self : Transducer B) (tr : list event).

(** What a successful run of the part before the scoring loop tells. *)
Lemma rescoring_prepare_ok_inv self speech sl beam_size dcs ndlc ss rw scw
    stw tr inp tr' :
  rescoring_prepare self speech sl beam_size dcs ndlc ss rw scw stw tr
  = (Ok inp, tr') ->
  let beam := fst (bs self speech sl dcs beam_size ndlc None scw stw) in
  let hyps_ := map (fun s => tl (hyp s)) beam in
  rescoring_checks speech sl dcs = true
  /\ Qgtb rw 0 = false
  /\ Z.of_nat (length beam) = beam_size
  /\ attention_decoder self <> None
  /\ ri_hyps inp = hyps_
  /\ exists hyps_pad,
       pad_sequence hyps_ (ignore_id self) = Ok hyps_pad
       /\ tr' = tr ++ [EvBeamSearch; EvPredictor; EvJoint;
                       EvRnntLoss (rnnt_remap (ignore_id self) hyps_pad);
                       EvAttentionDecoder].
Proof.
  unfold rescoring_prepare, rescoring_checks.
  cbn -[pad_sequence rnnt_remap].
  destruct (length speech =? length sl)%nat; cbn -[pad_sequence rnnt_remap];
    [|discriminate].
  destruct (dcs =? 0)%Z; cbn -[pad_sequence rnnt_remap]; [discriminate|].
  destruct (Qgtb rw 0); cbn -[pad_sequence rnnt_remap]; [discriminate|].
  destruct (length speech =? 1)%nat; cbn -[pad_sequence rnnt_remap];
    [|discriminate].
  destruct (bs self speech sl dcs beam_size ndlc None scw stw)
    as [beam encoder_out]. cbn -[pad_sequence rnnt_remap].
  destruct (_ =? beam_size)%Z eqn:Eb; cbn -[pad_sequence rnnt_remap];
    [|discriminate].
  destruct (pad_sequence _ _) as [hyps_pad|e] eqn:Ep; [|discriminate].
  destruct (add_sos_eos B hyps_pad _ _ _) as [hp x1].
  destruct (add_sos_eos B (reverse_pad_list B _ _ _) _ _ _) as [rhp x2].
  destruct (attention_decoder self) as [dec|]; [|discriminate].
  destruct (decoder_forward _ _ _ _ _ _ _) as [d r].
  intros [= <- <-]. cbn [ri_hyps].
  apply Z.eqb_eq in Eb. rewrite length_map in Eb.
  repeat split; auto; try discriminate.
  exists hyps_pad. split; [reflexivity|]. now rewrite <- !app_assoc.
Qed.

Lemma rescoring_prepare_checks_fail self speech sl beam_size dcs ndlc ss rw
    scw stw tr :
  rescoring_checks speech sl dcs = false ->
  exists e,
    rescoring_prepare self speech sl beam_size dcs ndlc ss rw scw stw tr
    = (Raise e, tr)
    /\ (e = AssertionError \/ e = AttributeError).
Proof.
  unfold rescoring_prepare, rescoring_checks.
  cbn -[pad_sequence rnnt_remap].
  destruct (length speech =? length sl)%nat; cbn -[pad_sequence rnnt_remap];
    [|eauto].
  destruct (dcs =? 0)%Z; cbn -[pad_sequence rnnt_remap]; [eauto|].
  destruct (Qgtb rw 0); cbn -[pad_sequence rnnt_remap]; [eauto|].
  destruct (length speech =? 1)%nat; cbn -[pad_sequence rnnt_remap];
    [discriminate | eauto].
Qed.

Lemma rescoring_loop_fin (decoder_out r_decoder_out : Logits3)
    (td_score beam_score : list Q) (eos_ : Z) (rw cw aw tw : Q)
    (hyps_ : list (list Z)) :
  forall i q bi best' bi',
    rescoring_loop decoder_out r_decoder_out td_score beam_score eos_ rw cw
      aw tw i hyps_ (Fin q) bi = Ok (best', bi') ->
    exists q', best' = Fin q'.
Proof.
  induction hyps_ as [|h rest IH]; intros i q bi best' bi'.
  - cbn. intros [= <- _]. eauto.
  - rewrite rescoring_loop_cons.
    destruct (hyp_score _ _ _ _ _ _ _ _ _ i h) as [s|]; [|discriminate].
    destruct (gt_xscore s (Fin q)); apply IH.
Qed.

(** A successful [select_best] returns one of the hypotheses it was given,
    with a finite score. *)
Lemma select_best_member (decoder_out r_decoder_out : Logits3)
    (td_score beam_score : list Q) (eos_ : Z) (rw cw aw tw : Q)
    (hyps_ : list (list Z)) (h : list Z) (s : xscore) :
  select_best decoder_out r_decoder_out td_score beam_score eos_ rw cw aw tw
    hyps_ = Ok (h, s) ->
  In h hyps_ /\ exists q, s = Fin q.
Proof.
  unfold select_best.
  destruct (rescoring_loop decoder_out r_decoder_out td_score beam_score eos_
              rw cw aw tw 0 hyps_ NegInf 0) as [[b' i']|] eqn:El;
    [|discriminate].
  cbn. unfold get.
  destruct (nth_error hyps_ i') as [h'|] eqn:En; [|discriminate].
  cbn. intros [= <- <-]. split; [eapply nth_error_In; eauto|].
  destruct hyps_ as [|h0 rest]; [destruct i'; discriminate En|].
  rewrite rescoring_loop_cons in El.
  destruct (hyp_score _ _ _ _ _ _ _ _ _ 0 h0) as [s0|]; [|discriminate].
  cbn in El. eapply rescoring_loop_fin; eauto.
Qed.

End MoreRescoringFacts.

(** X14.  Called with a positive [reverse_weight],
    [transducer_attention_rescoring] raises before it calls anything,
    whatever model it is called on: [AttributeError] once the two checks
    before it (equal batch sizes, [decoding_chunk_size != 0]) have passed. *)
Theorem rescoring_positive_reverse_weight_raises {B : Backend}
    (self : Transducer B) (speech : list (Feat B)) (sl : Lens)
    (beam_size dcs ndlc : Z) (ss : bool) (rw cw aw tw scw stw : Q)
    (tr : list event) :
  0 < rw ->
  exists e,
    transducer_attention_rescoring self speech sl beam_size dcs ndlc ss rw cw
      aw tw scw stw tr = (Raise e, tr)
    /\ ((length speech =? length sl)%nat && negb (dcs =? 0)%Z = true ->
        e = AttributeError).
Proof.
  intros Hrw. apply rescoring_reverse_always_raises.
  now apply Qgtb_true_iff.
Qed.

Lemma rescoring_positive_reverse_weight_raises_witness :
  exists e,
    transducer_attention_rescoring Toy.model Toy.speech2 [2%Z] 2 (-1) (-1)
      false 1 0 1 0 1 0 [] = (Raise e, [])
    /\ ((length Toy.speech2 =? length [2%Z])%nat && negb (-1 =? 0)%Z = true ->
        e = AttributeError).
Proof.
  apply (rescoring_positive_reverse_weight_raises Toy.model Toy.speech2 [2%Z]
           2 (-1) (-1) false 1 0 1 0 1 0 []).
  reflexivity.
Defined.

(** X15.  If the batch sizes of [speech] and [speech_lengths] differ, or
    [decoding_chunk_size] is 0, or the batch size is not 1,
    [transducer_attention_rescoring] raises [AssertionError] or
    [AttributeError] without calling the beam search or any module. *)
Theorem rescoring_checks_come_first {B : Backend} (self : Transducer B)
    (speech : list (Feat B)) (sl : Lens) (beam_size dcs ndlc : Z) (ss : bool)
    (rw cw aw tw scw stw : Q) (tr : list event) :
  rescoring_checks speech sl dcs = false ->
  exists e,
    transducer_attention_rescoring self speech sl beam_size dcs ndlc ss rw cw
      aw tw scw stw tr = (Raise e, tr)
    /\ (e = AssertionError \/ e = AttributeError).
Proof.
  intros Hc.
  destruct (rescoring_prepare_checks_fail self speech sl beam_size dcs ndlc ss
              rw scw stw tr Hc) as (e & Hp & He).
  exists e. split; [|exact He].
  unfold transducer_attention_rescoring. now rewrite bind_unfold, Hp.
Qed.

Lemma rescoring_checks_come_first_witness :
  exists e,
    transducer_attention_rescoring Toy.model Toy.speech2 [2%Z] 2 0 (-1) false
      0 0 1 0 1 0 [] = (Raise e, [])
    /\ (e = AssertionError \/ e = AttributeError).
Proof.
  apply (rescoring_checks_come_first Toy.model Toy.speech2 [2%Z] 2 0 (-1)
           false 0 0 1 0 1 0 []).
  reflexivity.
Defined.

(** X16.  A call of [transducer_attention_rescoring] that returns has
    passed its checks with [reverse_weight] not positive, got exactly
    [beam_size] hypotheses from the beam search, found an attention decoder
    on the model, and made five calls in this order: the beam search, the
    predictor, the joint network, the RNN-T loss kernel on the remapped
    padded hypotheses, and the attention decoder, once for the whole beam. *)
Theorem rescoring_success_calls {B : Backend} (self : Transducer B)
    (speech : list (Feat B)) (sl : Lens) (beam_size dcs ndlc : Z) (ss : bool)
    (rw cw aw tw scw stw : Q) (tr : list event) (h : list Z) (s : xscore)
    (tr' : list event) :
  transducer_attention_rescoring self speech sl beam_size dcs ndlc ss rw cw
    aw tw scw stw tr = (Ok (h, s), tr') ->
  rescoring_checks speech sl dcs = true
  /\ ~ 0 < rw
  /\ Z.of_nat (length (fst (bs self speech sl dcs beam_size ndlc None scw
                             stw))) = beam_size
  /\ attention_decoder self <> None
  /\ exists hyps_pad,
       pad_sequence
         (map (fun b => tl (hyp b))
            (fst (bs self speech sl dcs beam_size ndlc None scw stw)))
         (ignore_id self) = Ok hyps_pad
       /\ tr' = tr ++ [EvBeamSearch; EvPredictor; EvJoint;
                       EvRnntLoss (rnnt_remap (ignore_id self) hyps_pad);
                       EvAttentionDecoder].
Proof.
  unfold transducer_attention_rescoring. rewrite bind_unfold.
  destruct (rescoring_prepare self speech sl beam_size dcs ndlc ss rw scw stw
              tr) as [[inp|e] tr1] eqn:Hp; [|discriminate].
  unfold lift. intros [= Hs <-].
  destruct (rescoring_prepare_ok_inv _ _ _ _ _ _ _ _ _ _ _ _ _ Hp)
    as (Hc & Hrw & Hlen & Hdec & _ & Hpad).
  split; [exact Hc|]. split.
  { intros Hpos. apply Qgtb_true_iff in Hpos. congruence. }
  split; [exact Hlen|]. split; [exact Hdec | exact Hpad].
Qed.

Lemma rescoring_success_calls_witness :
  rescoring_checks (B := Toy.backend) Toy.speech2 [2%Z] (-1) = true
  /\ ~ 0 < 0
  /\ Z.of_nat
       (length
          (fst (bs Toy.model Toy.speech2 [2%Z] (-1)%Z 2%Z (-1)%Z None 1 0)))
     = 2%Z.
Proof.
  destruct (rescoring_success_calls Toy.model Toy.speech2 [2%Z] 2 (-1) (-1)
              false 0 0 1 0 1 0 [] [1%Z] (Fin (-2))
              [EvBeamSearch; EvPredictor; EvJoint;
               EvRnntLoss [[1; 0]; [1; 1]]%Z; EvAttentionDecoder])
    as (Hc & Hrw & Hlen & _).
  - vm_compute. reflexivity.
  - auto.
Defined.

(** X17.  The hypothesis [transducer_attention_rescoring] returns is one
    of the beam search's hypotheses with its leading start token removed,
    and the score returned with it is finite, never the initial
    [-inf]. *)
Theorem rescoring_returns_a_beam_hypothesis {B : Backend}
    (self : Transducer B) (speech : list (Feat B)) (sl : Lens)
    (beam_size dcs ndlc : Z) (ss : bool) (rw cw aw tw scw stw : Q)
    (tr : list event) (h : list Z) (s : xscore) (tr' : list event) :
  transducer_attention_rescoring self speech sl beam_size dcs ndlc ss rw cw
    aw tw scw stw tr = (Ok (h, s), tr') ->
  (exists b,
      In b (fst (bs self speech sl dcs beam_size ndlc None scw stw))
      /\ h = tl (hyp b))
  /\ exists q, s = Fin q.
Proof.
  unfold transducer_attention_rescoring. rewrite bind_unfold.
  destruct (rescoring_prepare self speech sl beam_size dcs ndlc ss rw scw stw
              tr) as [[inp|e] tr1] eqn:Hp; [|discriminate].
  unfold lift. intros [= Hs <-].
  destruct (rescoring_prepare_ok_inv _ _ _ _ _ _ _ _ _ _ _ _ _ Hp)
    as (_ & _ & _ & _ & Hh & _).
  destruct (select_best_member _ _ _ _ _ _ _ _ _ _ _ _ Hs) as (Hin & Hq).
  split; [|exact Hq].
  rewrite Hh in Hin. apply in_map_iff in Hin.
  destruct Hin as (b & <- & Hb). eauto.
Qed.

Lemma rescoring_returns_a_beam_hypothesis_witness :
  (exists b,
      In b (fst (bs Toy.model Toy.speech2 [2%Z] (-1)%Z 2%Z (-1)%Z None 1 0))
      /\ [1%Z] = tl (hyp b))
  /\ exists q, Fin (-2) = Fin q.
Proof.
  apply (rescoring_returns_a_beam_hypothesis Toy.model Toy.speech2 [2%Z] 2
           (-1) (-1) false 0 0 1 0 1 0 [] [1%Z] (Fin (-2))
           [EvBeamSearch; EvPredictor; EvJoint;
            EvRnntLoss [[1; 0]; [1; 1]]%Z; EvAttentionDecoder]).
  vm_compute. reflexivity.
Defined.

(** X18.  With the three rescoring weights left at their default 0.0, every
    fused score is zero, so [transducer_attention_rescoring] returns the
    first hypothesis of the beam, with a score equal to 0, once the method
    has reached its scoring loop and the loop's lookups succeed. *)
Theorem rescoring_default_weights_keep_first_hypothesis {B : Backend}
    (self : Transducer B) (speech : list (Feat B)) (sl : Lens)
    (beam_size dcs ndlc : Z) (ss : bool) (rw scw stw : Q) (tr : list event)
    (inp : rescoring_inputs) (tr' : list event) (attn : nat -> Q) :
  rescoring_prepare self speech sl beam_size dcs ndlc ss rw scw stw tr
  = (Ok inp, tr') ->
  (forall i h,
      nth_error (ri_hyps inp) i = Some h ->
      exists td,
        attention_score (ri_decoder_out inp) (ri_r_decoder_out inp)
          (ri_td_score inp) (eos self) rw i h
        = Ok (attn i, td)) ->
  exists h s,
    transducer_attention_rescoring self speech sl beam_size dcs ndlc ss rw 0
      0 0 scw stw tr = (Ok (h, Fin s), tr')
    /\ nth_error (ri_hyps inp) 0 = Some h
    /\ s == 0.
Proof.
  intros Hp Hatt.
  destruct (rescoring_prepare_inv _ _ _ _ _ _ _ _ _ _ _ _ _ Hp)
    as (_ & Hinp & _).
  destruct (Hinp inp eq_refl) as (_ & Hh & Hne & Hbs & loss_td & Htd).
  rewrite Htd in Hatt.
  destruct (select_best_fused (ri_decoder_out inp) (ri_r_decoder_out inp)
              loss_td (ri_beam_score inp) (eos self) rw 0 0 0
              (ri_hyps inp) attn)
    as (b & h & s & Hsel & Hb & Hs & _ & Hlt).
  - now rewrite Hh.
  - rewrite Hbs, Hh. now rewrite !length_map.
  - exact Hatt.
  - assert (Hz : forall i,
               fused_score 0 0 0 (attn i) (nth i (ri_beam_score inp) 0)
                 (nth i loss_td 0) == 0).
    { intros i. unfold fused_score. ring. }
    assert (Hb0 : b = 0%nat).
    { destruct b as [|b]; [reflexivity|]. exfalso.
      assert (Hl := Hlt 0%nat ltac:(lia)). rewrite !Hz in Hl.
      exact (Qlt_irrefl _ Hl). }
    subst b. exists h, s. split; [|split; [exact Hb|]].
    + unfold transducer_attention_rescoring.
      rewrite bind_unfold, Hp. unfold lift. now rewrite Htd, Hsel.
    + now rewrite Hs, Hz.
Qed.

Lemma rescoring_default_weights_keep_first_hypothesis_witness :
  exists h s,
    transducer_attention_rescoring Toy.model Toy.speech2 [2%Z] 2 (-1) (-1)
      false 0 0 0 0 1 0 []
    = (Ok (h, Fin s),
       [EvBeamSearch; EvPredictor; EvJoint; EvRnntLoss [[1; 0]; [1; 1]]%Z;
        EvAttentionDecoder])
    /\ nth_error (ri_hyps Toy.inputs) 0 = Some h
    /\ s == 0.
Proof.
  apply (rescoring_default_weights_keep_first_hypothesis Toy.model Toy.speech2
           [2%Z] 2 (-1) (-1) false 0 1 0 [] Toy.inputs
           [EvBeamSearch; EvPredictor; EvJoint;
            EvRnntLoss [[1; 0]; [1; 1]]%Z; EvAttentionDecoder] Toy.attn).
  - vm_compute. reflexivity.
  - intros [|[|i]] h Hh.
    + injection Hh as <-. exists (-2 # 1). vm_compute. reflexivity.
    + injection Hh as <-. exists (-2 # 1). vm_compute. reflexivity.
    + destruct i; discriminate Hh.
Defined.
